(** * autoeditor: silence extraction, cut planning and filter-graph emission

    A shallow embedding of [silencedetector.py] and
    [stage1_silencecutterfade.py].

    Conventions of the embedding.
    - Python floats are modelled by exact rationals ([Q]); comparisons are
      the boolean comparisons of [Q], equality of times is [Qeq].
    - A Python exception is a value of [exn]; a computation that may raise
      returns a [result].
    - The only mutable object of the graph builder is the counter
      [StartStream.next]; it is threaded explicitly as the state of the
      monad [M].  Every node of one run reaches the same [StartStream]
      object through its [src] chain, so one counter models it. *)

From Stdlib Require Import ZArith QArith Qabs Lqa Lia List String Ascii Bool.
From Stdlib Require Import DecimalString Sorted Qround DecimalZ.
Import ListNotations.

Local Open Scope Q_scope.

(** ** Exceptions and results *)

Inductive exn : Type :=
| AssertionError        (* a failed [assert] *)
| NotImplementedError   (* [BaseStream.next_id] *)
| IndexError            (* [self.streams[0]] on an empty tuple *)
| AttributeError        (* a method or attribute the object lacks *)
| KeyError              (* a missing dictionary key *)
| ValueError            (* [float()] on a malformed literal *)
| NameError             (* a name that is not bound *)
| DurationOff (calc_duration reported : Q).
                        (* [Exception("Duration is off by more than 0.1 seconds ...")] *)

Inductive result (A : Type) : Type :=
| Ok (a : A)
| Raise (e : exn).
Arguments Ok {A} a.
Arguments Raise {A} e.

(** ** silencedetector.py *)

Module silencedetector.

(** *** The two regular expressions

    [re.match] anchors at the start of the line only.  Both patterns are a
    literal, a non-empty run of a character class, a literal, and a
    non-empty captured run of a character class (the end pattern has one
    more literal and captured run).  Every run is followed by a character
    outside its class or by the end of the pattern, so the greedy match
    without backtracking is the match of the pattern. *)

Definition in_range (lo hi : nat) (c : ascii) : bool :=
  let n := nat_of_ascii c in (lo <=? n)%nat && (n <=? hi)%nat.

(** [[0-9]] *)
Definition is_digit (c : ascii) : bool := in_range 48 57 c.

(** [[0-9a-f]] *)
Definition is_hex (c : ascii) : bool := is_digit c || in_range 97 102 c.

(** [[0-9\.]] *)
Definition is_num (c : ascii) : bool := is_digit c || Ascii.eqb c ".".

(** Strip a literal from the front of a line. *)
Fixpoint literal (lit line : string) : option string :=
  match lit, line with
  | EmptyString, _ => Some line
  | String a lit', String b line' =>
      if Ascii.eqb a b then literal lit' line' else None
  | String _ _, EmptyString => None
  end.

(** The longest prefix in a class, and what follows it. *)
Fixpoint span (cls : ascii -> bool) (line : string) : string * string :=
  match line with
  | EmptyString => (EmptyString, EmptyString)
  | String c rest =>
      if cls c then let (run, tl) := span cls rest in (String c run, tl)
      else (EmptyString, line)
  end.

(** [cls+] *)
Definition plus (cls : ascii -> bool) (line : string) : option (string * string) :=
  match span cls line with
  | (EmptyString, _) => None
  | (run, tl) => Some (run, tl)
  end.

(** [\[silencedetect @ [0-9a-f]+\] ] *)
Definition silencedetect_tag (line : string) : option string :=
  match literal "[silencedetect @ " line with
  | None => None
  | Some r =>
      match plus is_hex r with
      | None => None
      | Some (_, r') => literal "] " r'
      end
  end.

(** [SILENCE_START_RE.match(line)]: [Some g1] when the line matches. *)
Definition SILENCE_START_RE (line : string) : option string :=
  match silencedetect_tag line with
  | None => None
  | Some r =>
      match literal "silence_start: " r with
      | None => None
      | Some r' =>
          match plus is_num r' with
          | None => None
          | Some (g1, _) => Some g1
          end
      end
  end.

(** [SILENCE_END_RE.match(line)]: [Some (g1, g2)] when the line matches. *)
Definition SILENCE_END_RE (line : string) : option (string * string) :=
  match silencedetect_tag line with
  | None => None
  | Some r =>
      match literal "silence_end: " r with
      | None => None
      | Some r1 =>
          match plus is_num r1 with
          | None => None
          | Some (g1, r2) =>
              match literal " | silence_duration: " r2 with
              | None => None
              | Some r3 =>
                  match plus is_num r3 with
                  | None => None
                  | Some (g2, _) => Some (g1, g2)
                  end
              end
          end
      end
  end.

(** *** [float()] on a captured group

    A group is a non-empty string over [[0-9.]].  [float] accepts it when
    it has at most one dot and at least one digit; its value here is the
    exact decimal. *)

Fixpoint digits_value (s : string) (acc : Z) : Z :=
  match s with
  | EmptyString => acc
  | String c r => digits_value r (10 * acc + (Z.of_nat (nat_of_ascii c) - 48))%Z
  end.

Fixpoint all_digits (s : string) : bool :=
  match s with
  | EmptyString => true
  | String c r => is_digit c && all_digits r
  end.

Definition float (s : string) : result Q :=
  let (ip, tl) := span is_digit s in
  match tl with
  | EmptyString =>
      if (String.length ip =? 0)%nat then Raise ValueError
      else Ok (inject_Z (digits_value ip 0))
  | String c fp =>
      if Ascii.eqb c "." && all_digits fp
         && negb ((String.length ip + String.length fp =? 0)%nat)
      then Ok (Qmake (digits_value fp (digits_value ip 0))
                     (Z.to_pos (10 ^ Z.of_nat (String.length fp))))
      else Raise ValueError
  end.

(** *** [class Silence(dict)] *)

(** A completed silence: the three keys ["start"], ["end"], ["duration"].
    Between [__init__] and [update_end] only ["start"] is set; the scanner
    keeps that start as its pending state. *)
Record Silence : Type := mkSilence {
  start : Q;
  end_ : Q;
  duration : Q
}.

(** [Silence.update_end], on the silence created with [Silence(start)]. *)
Definition update_end (start0 end0 duration0 : Q) : result Silence :=
  let calc_duration := end0 - start0 in
  let duration_error := Qabs (calc_duration - duration0) in
  if Qle_bool duration_error (1 # 10)
  then Ok (mkSilence start0 end0 duration0)
  else Raise (DurationOff calc_duration duration0).

(** *** [SilenceDetectedVideo.silences]

    The state of the loop: [current_silence] ([None] exactly when
    [expecting_start]) and [silence_list]. *)

Definition step (current_silence : option Q) (silence_list : list Silence)
    (line : string) : result (option Q * list Silence) :=
  match current_silence with
  | None =>
      (* expecting_start *)
      match SILENCE_START_RE line with
      | Some g1 =>
          match float g1 with
          | Ok s => Ok (Some s, silence_list)
          | Raise e => Raise e
          end
      | None => Ok (None, silence_list)
      end
  | Some s =>
      match SILENCE_END_RE line with
      | Some (g1, g2) =>
          match float g1 with
          | Raise e => Raise e
          | Ok e1 =>
              match float g2 with
              | Raise e => Raise e
              | Ok d =>
                  match update_end s e1 d with
                  | Raise e => Raise e
                  | Ok sil => Ok (None, silence_list ++ [sil])
                  end
              end
          end
      | None => Ok (Some s, silence_list)
      end
  end.

Fixpoint scan (lines : list string) (current_silence : option Q)
    (silence_list : list Silence) : result (list Silence) :=
  match lines with
  | [] => Ok silence_list
  | line :: rest =>
      match step current_silence silence_list line with
      | Raise e => Raise e
      | Ok (cur, sl) => scan rest cur sl
      end
  end.

(** [silences], applied to [output.splitlines()]. *)
Definition silences (lines : list string) : result (list Silence) :=
  scan lines None [].

(** *** [silencedetector]: the histogram of silence lengths

    [counters] is the dictionary with the keys 0..29; as the keys never
    change it is the list of its 30 values, in key order. *)

(** [i <= silence["duration"] < i + 1] *)
Definition in_bucket (i : nat) (d : Q) : bool :=
  Qle_bool (inject_Z (Z.of_nat i)) d
  && negb (Qle_bool (inject_Z (Z.of_nat i) + 1) d).

(** [counters[i] += 1] *)
Fixpoint increment (counters : list nat) (i : nat) : list nat :=
  match counters, i with
  | [], _ => []
  | c :: rest, O => S c :: rest
  | c :: rest, S i' => c :: increment rest i'
  end.

(** The inner loop over [range(30)], with its [break]. *)
Fixpoint count_silence (d : Q) (range : list nat) (counters : list nat)
    : list nat :=
  match range with
  | [] => counters
  | i :: rest =>
      if in_bucket i d then increment counters i
      else count_silence d rest counters
  end.

(** The counters that [silencedetector] logs, from the silences of the
    video. *)
Definition silencedetector (sils : list Silence) : list nat :=
  fold_left (fun counters silence =>
               count_silence (duration silence) (seq 0 30) counters)
    sils (repeat O 30).

End silencedetector.

Import silencedetector.

(** ** stage1_silencecutterfade.py *)

Module stage1.

Definition MAX_SILENCE_LENGTH : Q := 3.
Definition START_SILENCE_LENGTH : Q := (MAX_SILENCE_LENGTH * 3) / 4.
Definition END_SILENCE_LENGTH : Q := MAX_SILENCE_LENGTH - START_SILENCE_LENGTH.
Definition FADE_LENGTH : Q := 1 # 2.

(** *** The stream classes

    One constructor per class.  [stream_id] is the identifier obtained in
    [__init__]; [StartStream] has the fixed identifier [-1].  [PtsTrim]'s
    [kwargs] are the two keys the planner passes, [start] and [end];
    [Concat]'s [kwargs] are always empty. *)

#[local] Unset Elimination Schemes.
Inductive BaseStream : Type :=
| StartStream
| InputStream (src : BaseStream) (stream_id : Z) (stream_def audio_stream_id : string)
| PtsTrim (src : BaseStream) (stream_id : Z) (start end_ : Q)
| Concat (streams : list BaseStream) (stream_id : Z)
| Crossfade (fade_out fade_in : BaseStream) (stream_id : Z).
#[local] Set Elimination Schemes.

Definition stream_id (s : BaseStream) : Z :=
  match s with
  | StartStream => -1
  | InputStream _ i _ _ => i
  | PtsTrim _ i _ _ => i
  | Concat _ i => i
  | Crossfade _ _ i => i
  end.

(** [str] of an integer. *)
Definition str (z : Z) : string := NilZero.string_of_int (Z.to_int z).

(** [BaseStream.__init__] sets ["[v{id}]"]; [InputStream] overrides it. *)
Definition video_id (s : BaseStream) : string :=
  match s with
  | InputStream _ i _ _ => "[" ++ str i ++ ":v:0]"
  | _ => "[v" ++ str (stream_id s) ++ "]"
  end.

Definition audio_id (s : BaseStream) : string :=
  match s with
  | InputStream _ i _ a => "[" ++ str i ++ ":a:" ++ a ++ "]"
  | _ => "[a" ++ str (stream_id s) ++ "]"
  end.

(** *** The builder monad: the state is [StartStream.next] *)

Definition M (A : Type) : Type := Z -> result (A * Z).

Definition ret {A} (a : A) : M A := fun next => Ok (a, next).

Definition bind {A B} (m : M A) (k : A -> M B) : M B :=
  fun next =>
    match m next with
    | Ok (a, next') => k a next'
    | Raise e => Raise e
    end.

Definition raise {A} (e : exn) : M A := fun _ => Raise e.

Definition lift {A} (r : result A) : M A :=
  fun next => match r with Ok a => Ok (a, next) | Raise e => Raise e end.

Definition assert (b : bool) : M unit :=
  if b then ret tt else raise AssertionError.

Declare Scope builder_scope.
Delimit Scope builder_scope with builder.
Notation "x <- c ;; k" := (bind c (fun x => k))
  (at level 61, c at next level, right associativity) : builder_scope.
Notation "' p <- c ;; k" := (bind c (fun x => match x with p => k end))
  (at level 61, p pattern, c at next level, right associativity) : builder_scope.
Local Open Scope builder_scope.

(** [StartStream.__init__]: [self.next = self.stream_id]. *)
Definition StartStream_next0 : Z := -1.

(** [next_id]: [StartStream] increments and returns its counter;
    [InputStream] and [SubStream] delegate to [src]; [Concat] and
    [Crossfade] inherit [BaseStream.next_id], which raises. *)
Fixpoint next_id (s : BaseStream) : M Z :=
  match s with
  | StartStream => fun next => Ok ((next + 1)%Z, (next + 1)%Z)
  | InputStream src _ _ _ => next_id src
  | PtsTrim src _ _ _ => next_id src
  | Concat _ _ => raise NotImplementedError
  | Crossfade _ _ _ => raise NotImplementedError
  end.

(** [PtsTrim.duration]; no other class defines it. *)
Definition duration (s : BaseStream) : result Q :=
  match s with
  | PtsTrim _ _ start end_ => Ok (end_ - start)
  | _ => Raise AttributeError
  end.

(** [s.kwargs[key]] for [key] in ["start"], ["end"]. *)
Definition kwargs_start (s : BaseStream) : result Q :=
  match s with
  | PtsTrim _ _ start _ => Ok start
  | Concat _ _ => Raise KeyError
  | _ => Raise AttributeError
  end.

Definition kwargs_end (s : BaseStream) : result Q :=
  match s with
  | PtsTrim _ _ _ end_ => Ok end_
  | Concat _ _ => Raise KeyError
  | _ => Raise AttributeError
  end.

(** [InputStream(src, stream_def, audio_stream_id)]; a [None] or empty
    [stream_def] is replaced by [str(stream_id)]. *)
Definition new_InputStream (src : BaseStream) (stream_def : option string)
    (audio_stream_id : string) : M BaseStream :=
  i <- next_id src ;;
  let d := match stream_def with
           | Some (String c r) => String c r
           | _ => str i
           end in
  ret (InputStream src i d audio_stream_id).

(** [PtsTrim(src, start=.., end=..)], through [SubStream.__init__]. *)
Definition new_PtsTrim (src : BaseStream) (start end_ : Q) : M BaseStream :=
  i <- next_id src ;;
  ret (PtsTrim src i start end_).

(** [Concat] applied to the tuple [streams]. *)
Definition new_Concat (streams : list BaseStream) : M BaseStream :=
  match streams with
  | [] => raise IndexError
  | s0 :: _ => i <- next_id s0 ;; ret (Concat streams i)
  end.

(** [Crossfade(fade_out, fade_in)]: the assertion comes first. *)
Definition new_Crossfade (fade_out fade_in : BaseStream) : M BaseStream :=
  d_out <- lift (duration fade_out) ;;
  d_in <- lift (duration fade_in) ;;
  _ <- assert (Qeq_bool d_out d_in) ;;
  i <- next_id fade_out ;;
  ret (Crossfade fade_out fade_in i).

(** *** The planner *)

(** The fade-out length chosen at lines 127-134. *)
Definition new_fade_out (start_ts end_ts fade_out_duration : Q)
    (do_fade_out : bool) : Q :=
  let nfo :=
    if Qle_bool (end_ts - FADE_LENGTH) (start_ts + fade_out_duration)
    then end_ts - (start_ts + fade_out_duration)
    else FADE_LENGTH in
  if negb do_fade_out then 0 else nfo.

(** [a > 0] *)
Definition Qpos_bool (a : Q) : bool := negb (Qle_bool a 0).

(** [do_crossfade_main]; the list [streams] it appends to is returned
    together with the new pending fade-out. *)
Definition do_crossfade_main (stream : BaseStream) (start_ts end_ts : Q)
    (fade_out : option BaseStream) (streams : list BaseStream)
    (do_fade_out : bool) : M (option BaseStream * list BaseStream) :=
  ' (fade_out_duration, streams1) <-
      match fade_out with
      | Some fo =>
          e <- lift (kwargs_end fo) ;;
          s <- lift (kwargs_start fo) ;;
          let fade_out_duration := e - s in
          fade_in <- new_PtsTrim stream start_ts (start_ts + fade_out_duration) ;;
          cross_fade <- new_Crossfade fo fade_in ;;
          ret (fade_out_duration, streams ++ [cross_fade])
      | None => ret (0, streams)
      end ;;
  let nfo := new_fade_out start_ts end_ts fade_out_duration do_fade_out in
  main_clip <- new_PtsTrim stream (start_ts + fade_out_duration) (end_ts - nfo) ;;
  d <- lift (duration main_clip) ;;
  let streams2 := if Qpos_bool d then streams1 ++ [main_clip] else streams1 in
  if do_fade_out
  then fo <- new_PtsTrim stream (end_ts - nfo) end_ts ;; ret (Some fo, streams2)
  else ret (None, streams2).

(** The [for] loop over the silences (lines 48-54). *)
Fixpoint boundaries (stream : BaseStream) (silences : list Silence) (start_ts : Q)
    (fade_out : option BaseStream) (streams : list BaseStream)
    : M (Q * option BaseStream * list BaseStream) :=
  match silences with
  | [] => ret (start_ts, fade_out, streams)
  | silence :: rest =>
      let end_ts := silencedetector.start silence + START_SILENCE_LENGTH in
      ' (fade_out', streams') <-
          do_crossfade_main stream start_ts end_ts fade_out streams true ;;
      let start_ts' := silencedetector.end_ silence - END_SILENCE_LENGTH in
      boundaries stream rest start_ts' fade_out' streams'
  end.

(** Lines 38-62: everything up to the list handed to [Concat]. *)
Definition plan (video_duration : Q) (silences : list Silence)
    (audio_stream_id : string) : M (list BaseStream) :=
  let ss := StartStream in
  combined_stream <- new_InputStream ss (Some "main"%string) audio_stream_id ;;
  ' (start_ts, fade_out, streams) <- boundaries combined_stream silences 0 None [] ;;
  let end_ts := video_duration in
  ' (fade_out', streams') <-
      do_crossfade_main combined_stream start_ts end_ts fade_out streams false ;;
  _ <- assert (match fade_out' with None => true | Some _ => false end) ;;
  ret streams'.

(** Lines 38-67: the graph of one video. *)
Definition silencecutterfade (video_duration : Q) (silences : list Silence)
    (audio_stream_id : string) : M BaseStream :=
  streams <- plan video_duration silences audio_stream_id ;;
  new_Concat streams.

(** A run starts with a fresh [StartStream]. *)
Definition run {A} (m : M A) : result A :=
  match m StartStream_next0 with
  | Ok (a, _) => Ok a
  | Raise e => Raise e
  end.

(** *** Emission: [filters] and [generate_filter_complex] *)

(** The streams an object holds a reference to: [src], [streams], or
    [fade_out] and [fade_in]. *)
Definition predecessors (s : BaseStream) : list BaseStream :=
  match s with
  | StartStream => []
  | InputStream src _ _ _ => [src]
  | PtsTrim src _ _ _ => [src]
  | Concat streams _ => streams
  | Crossfade fade_out fade_in _ => [fade_out; fade_in]
  end.

Section Emission.

(** How Python prints a number inside a format string; the text of a
    float is outside the exact-arithmetic model, so it is a parameter. *)
Variable str_float : Q -> string.

(** [":".join("{0}={1}".format(k, v) for k, v in self.kwargs.items())] *)
Definition parms (start end_ : Q) : string :=
  "start=" ++ str_float start ++ ":end=" ++ str_float end_.

(** The expressions a node appends after its predecessors have emitted. *)
Definition own_filters (s : BaseStream) : list string :=
  match s with
  | StartStream => []
  | InputStream _ _ _ _ => []
  | PtsTrim src _ start end_ =>
      let video_trim :=
        video_id src ++ "trim=" ++ parms start end_
          ++ ",setpts=PTS-STARTPTS" ++ video_id s in
      let audio_trim :=
        audio_id src ++ "atrim=" ++ parms start end_
          ++ ",asetpts=PTS-STARTPTS" ++ audio_id s in
      [video_trim; audio_trim]
  | Concat streams _ =>
      let concat_ids := flat_map (fun x => [video_id x; audio_id x]) streams in
      [String.concat "" concat_ids ++ "concat=n="
         ++ str (Z.of_nat (List.length streams)) ++ ":v=1:a=1"
         ++ video_id s ++ audio_id s]
  | Crossfade fade_out fade_in i =>
      let fadeout_alpha :=
        video_id fade_out ++ "format=pix_fmts=yuva420p,fade=t=out:st=0:d="
          ++ str_float FADE_LENGTH ++ ":alpha=1" ++ "[z" ++ str i ++ "]" in
      let fadeout_fifo := "[z" ++ str i ++ "]fifo[y" ++ str i ++ "]" in
      let fadein_alpha :=
        video_id fade_in ++ "format=pix_fmts=yuva420p,fade=t=in:st=0:d="
          ++ str_float FADE_LENGTH ++ ":alpha=1" ++ "[b" ++ str i ++ "]" in
      let fadein_fifo := "[b" ++ str i ++ "]fifo[c" ++ str i ++ "]" in
      let overlay :=
        "[y" ++ str i ++ "][c" ++ str i ++ "]overlay" ++ video_id s in
      let audio_fade :=
        audio_id fade_out ++ audio_id fade_in ++ "acrossfade=d="
          ++ str_float FADE_LENGTH ++ audio_id s in
      [fadeout_alpha; fadeout_fifo; fadein_alpha; fadein_fifo; overlay; audio_fade]
  end%string.

(** [s.filters(filter_list)]: the list after the call. *)
Fixpoint filters (s : BaseStream) (filter_list : list string) : list string :=
  match s with
  | StartStream => filter_list
  | InputStream src _ _ _ => filters src filter_list
  | PtsTrim src _ _ _ => filters src filter_list ++ own_filters s
  | Concat streams _ =>
      fold_left (fun fl x => filters x fl) streams filter_list ++ own_filters s
  | Crossfade fade_out fade_in _ =>
      filters fade_in (filters fade_out filter_list) ++ own_filters s
  end.

(** [generate_filter_complex]: the text written to the script file and
    the two labels mapped as outputs. *)
Definition generate_filter_complex (stream : BaseStream)
    : string * string * string :=
  let filter_list := filters stream [] in
  (String.concat ";" filter_list, video_id stream, audio_id stream).

End Emission.

End stage1.

Import stage1.
Local Open Scope builder_scope.

(** ** Vocabulary of the properties *)

(** *** Induction over streams

    [BaseStream] is nested through [list] (the streams of a [Concat]); the
    induction principle gives the hypothesis for every element. *)

Section BaseStream_induction.
Variable P : BaseStream -> Prop.
Hypothesis HStart : P StartStream.
Hypothesis HInput : forall src i d a, P src -> P (InputStream src i d a).
Hypothesis HTrim : forall src i a b, P src -> P (PtsTrim src i a b).
Hypothesis HConcat : forall l i, Forall P l -> P (Concat l i).
Hypothesis HCross : forall fo fi i, P fo -> P fi -> P (Crossfade fo fi i).

Fixpoint BaseStream_ind (s : BaseStream) : P s :=
  match s with
  | StartStream => HStart
  | InputStream src i d a => HInput src i d a (BaseStream_ind src)
  | PtsTrim src i a b => HTrim src i a b (BaseStream_ind src)
  | Concat l i =>
      HConcat l i
        ((fix all (l : list BaseStream) : Forall P l :=
            match l with
            | [] => Forall_nil P
            | x :: l' => Forall_cons x (BaseStream_ind x) (all l')
            end) l)
  | Crossfade fo fi i => HCross fo fi i (BaseStream_ind fo) (BaseStream_ind fi)
  end.
End BaseStream_induction.

(** *** Construction sequences

    A client of the stream classes builds nodes one after the other, each
    from nodes built before it.  [ctor] names one constructor call, its
    stream arguments given by position in the list of nodes built so far
    (position 0 is the [StartStream]). *)

Inductive ctor : Type :=
| MkInputStream (src : nat) (stream_def : option string) (audio_stream_id : string)
| MkPtsTrim (src : nat) (start end_ : Q)
| MkCrossfade (fade_out fade_in : nat)
| MkConcat (streams : list nat).

(** The node at a position; a position not built yet is an unbound name. *)
Definition fetch (env : list BaseStream) (p : nat) : M BaseStream :=
  match nth_error env p with
  | Some s => ret s
  | None => raise NameError
  end.

Fixpoint fetch_all (env : list BaseStream) (ps : list nat) : M (list BaseStream) :=
  match ps with
  | [] => ret []
  | p :: ps' => s <- fetch env p ;; l <- fetch_all env ps' ;; ret (s :: l)
  end.

(** One constructor call. *)
Definition construct (env : list BaseStream) (c : ctor) : M BaseStream :=
  match c with
  | MkInputStream src d a => s <- fetch env src ;; new_InputStream s d a
  | MkPtsTrim src start end_ => s <- fetch env src ;; new_PtsTrim s start end_
  | MkCrossfade fo fi =>
      a <- fetch env fo ;; b <- fetch env fi ;; new_Crossfade a b
  | MkConcat ps => l <- fetch_all env ps ;; new_Concat l
  end.

(** A whole sequence; the result lists the nodes in construction order. *)
Fixpoint build (cs : list ctor) (env : list BaseStream) : M (list BaseStream) :=
  match cs with
  | [] => ret env
  | c :: cs' => s <- construct env c ;; build cs' (env ++ [s])
  end.

(** The identifiers handed out, in construction order. *)
Definition assigned_ids (env : list BaseStream) : list Z :=
  map stream_id (tl env).

(** *** The graph of references *)

(** [reaches r n]: [n] is [r] or is reached from [r] through references. *)
Inductive reaches : BaseStream -> BaseStream -> Prop :=
| reaches_self r : reaches r r
| reaches_step r p n : In p (predecessors r) -> reaches p n -> reaches r n.

(** *** Segments of a plan *)

(** What the planner hands to [Concat], with the times in lowest terms. *)
Inductive segment : Type :=
| Clip (start end_ : Q)
| Fade (out_start out_end in_start in_end : Q)
| Other.

Definition describe (s : BaseStream) : segment :=
  match s with
  | PtsTrim _ _ a b => Clip (Qred a) (Qred b)
  | Crossfade (PtsTrim _ _ a b) (PtsTrim _ _ c d) _ =>
      Fade (Qred a) (Qred b) (Qred c) (Qred d)
  | _ => Other
  end.

(** The duration of the fade-out half of a crossfade, of a main clip. *)
Definition fade_out_durations (streams : list BaseStream) : list Q :=
  flat_map (fun s => match s with
                     | Crossfade (PtsTrim _ _ a b) _ _ => [b - a]
                     | _ => []
                     end) streams.

Definition main_clip_durations (streams : list BaseStream) : list Q :=
  flat_map (fun s => match s with
                     | PtsTrim _ _ a b => [b - a]
                     | _ => []
                     end) streams.

(** Silences in chronological order from time [t]: the first starts no
    earlier than [t], each next one no earlier than the end of the one
    before it. *)
Fixpoint chronological (t : Q) (silences : list Silence) : Prop :=
  match silences with
  | [] => True
  | s :: rest => t <= start s /\ chronological (end_ s) rest
  end.

(** *** One planning step in closed form

    What [do_crossfade_main] returns when [stream] reaches the
    [StartStream] and the pending fade-out is a trim of [stream]; the
    lemma [do_crossfade_main_closed] proves the equality. *)

(** [next_id] of the stream reaches [StartStream.next_id]. *)
Fixpoint rooted (s : BaseStream) : bool :=
  match s with
  | StartStream => true
  | InputStream src _ _ _ => rooted src
  | PtsTrim src _ _ _ => rooted src
  | Concat _ _ => false
  | Crossfade _ _ _ => false
  end.

(** The pending fade-out is [None] or a trim of [cs]. *)
Definition pending (cs : BaseStream) (fade_out : option BaseStream) : Prop :=
  match fade_out with
  | None => True
  | Some f => exists i a b, f = PtsTrim cs i a b
  end.

Definition fade_duration (fade_out : option BaseStream) : Q :=
  match fade_out with
  | Some (PtsTrim _ _ a b) => b - a
  | _ => 0
  end.

(** Identifiers taken by the crossfade part of a step. *)
Definition step_used (fade_out : option BaseStream) : Z :=
  match fade_out with Some _ => 2 | None => 0 end.

Definition step_cross (cs : BaseStream) (start_ts : Q)
    (fade_out : option BaseStream) (next : Z) : list BaseStream :=
  match fade_out with
  | Some f =>
      [Crossfade f
         (PtsTrim cs (next + 1) start_ts (start_ts + fade_duration fade_out))
         (next + 2)]
  | None => []
  end.

Definition step_main (cs : BaseStream) (start_ts end_ts : Q)
    (fade_out : option BaseStream) (do_fade_out : bool) (next : Z) : BaseStream :=
  PtsTrim cs (next + step_used fade_out + 1)
    (start_ts + fade_duration fade_out)
    (end_ts - new_fade_out start_ts end_ts (fade_duration fade_out) do_fade_out).

(** The main clip, when it is kept. *)
Definition step_kept (cs : BaseStream) (start_ts end_ts : Q)
    (fade_out : option BaseStream) (do_fade_out : bool) (next : Z)
    : list BaseStream :=
  if Qpos_bool
       (end_ts - new_fade_out start_ts end_ts (fade_duration fade_out) do_fade_out
        - (start_ts + fade_duration fade_out))
  then [step_main cs start_ts end_ts fade_out do_fade_out next]
  else [].

Definition step_streams (cs : BaseStream) (start_ts end_ts : Q)
    (fade_out : option BaseStream) (streams : list BaseStream)
    (do_fade_out : bool) (next : Z) : list BaseStream :=
  streams ++ step_cross cs start_ts fade_out next
    ++ step_kept cs start_ts end_ts fade_out do_fade_out next.

Definition step_fade_out (cs : BaseStream) (start_ts end_ts : Q)
    (fade_out : option BaseStream) (do_fade_out : bool) (next : Z)
    : option BaseStream :=
  if do_fade_out
  then Some (PtsTrim cs (next + step_used fade_out + 2)
               (end_ts - new_fade_out start_ts end_ts (fade_duration fade_out) true)
               end_ts)
  else None.

Definition step_next (fade_out : option BaseStream) (do_fade_out : bool)
    (next : Z) : Z :=
  (next + step_used fade_out + (if do_fade_out then 2 else 1))%Z.

(** The loop over the silences, step by step. *)
Fixpoint boundaries_closed (cs : BaseStream) (silences : list Silence)
    (start_ts : Q) (fade_out : option BaseStream) (streams : list BaseStream)
    (next : Z) : Q * option BaseStream * list BaseStream * Z :=
  match silences with
  | [] => (start_ts, fade_out, streams, next)
  | silence :: rest =>
      let end_ts := start silence + START_SILENCE_LENGTH in
      boundaries_closed cs rest (end_ silence - END_SILENCE_LENGTH)
        (step_fade_out cs start_ts end_ts fade_out true next)
        (step_streams cs start_ts end_ts fade_out streams true next)
        (step_next fade_out true next)
  end.

(** The one [InputStream] of a run, and the whole plan step by step. *)
Definition combined_stream (audio_stream_id : string) : BaseStream :=
  InputStream StartStream 0 "main" audio_stream_id.

Definition plan_closed (video_duration : Q) (silences : list Silence)
    (audio_stream_id : string) : list BaseStream * Z :=
  let cs := combined_stream audio_stream_id in
  let '(start_ts, fade_out, streams, next) :=
    boundaries_closed cs silences 0 None [] 0 in
  (step_streams cs start_ts video_duration fade_out streams false next,
   step_next fade_out false next).

(** *** Shape of a plan *)

(** What the planner appends to [streams]: a trim of the input, or a
    crossfade of two trims of the input. *)
Inductive planned (cs : BaseStream) : BaseStream -> Prop :=
| planned_clip i a b : planned cs (PtsTrim cs i a b)
| planned_fade i a b j c d k :
    planned cs (Crossfade (PtsTrim cs i a b) (PtsTrim cs j c d) k).

(** The identifiers a planned stream owns: its own and its trims'. *)
Definition seg_ids (s : BaseStream) : list Z :=
  match s with
  | PtsTrim _ i _ _ => [i]
  | Crossfade fade_out fade_in k => [stream_id fade_out; stream_id fade_in; k]
  | _ => []
  end.

Definition pending_ids (fade_out : option BaseStream) : list Z :=
  match fade_out with
  | Some f => [stream_id f]
  | None => []
  end.

(** A crossfade whose two halves have the same duration. *)
Definition balanced (s : BaseStream) : Prop :=
  match s with
  | Crossfade fade_out fade_in _ =>
      exists d_out d_in,
        stage1.duration fade_out = Ok d_out
        /\ stage1.duration fade_in = Ok d_in /\ d_out == d_in
  | _ => True
  end.

(** The invariant of the loop for silences in chronological order. *)
Definition chrono_inv (rest : list Silence) (s : Q) (fo : option BaseStream)
    (streams : list BaseStream) : Prop :=
  exists t,
    chronological t rest
    /\ s + fade_duration fo <= t + 1
    /\ Forall (fun d => d == FADE_LENGTH) (fade_out_durations streams)
    /\ (fo = None \/ fade_duration fo == FADE_LENGTH).

(** The invariant of the loop on identifiers: the streams are planned
    ones and their identifiers, followed by the pending fade-out's, are
    increasing and at most the counter. *)
Definition ids_inv (cs : BaseStream) (fo : option BaseStream)
    (streams : list BaseStream) (next : Z) : Prop :=
  Forall (planned cs) streams
  /\ StronglySorted Z.lt (flat_map seg_ids streams ++ pending_ids fo)
  /\ Forall (fun i => (0 < i <= next)%Z) (flat_map seg_ids streams ++ pending_ids fo).

(** *** Extracted silences *)

(** The tolerance invariant of a completed silence. *)
Definition within_tolerance (x : Silence) : Prop :=
  Qabs ((end_ x - start x) - silencedetector.duration x) <= 1 # 10.

(** *** Events of a log *)

Definition matches_start (line : string) : bool :=
  match SILENCE_START_RE line with Some _ => true | None => false end.

Definition matches_end (line : string) : bool :=
  match SILENCE_END_RE line with Some _ => true | None => false end.


(** The scanner with its final state: [silences] forgets the pending
    start. *)
Fixpoint scan_state (lines : list string) (current_silence : option Q)
    (silence_list : list Silence) : result (option Q * list Silence) :=
  match lines with
  | [] => Ok (current_silence, silence_list)
  | line :: rest =>
      match step current_silence silence_list line with
      | Raise e => Raise e
      | Ok (cur, sl) => scan_state rest cur sl
      end
  end.

(** Streams that are not an [InputStream]: their labels are the ones
    [BaseStream.__init__] sets. *)
Definition plain_label (s : BaseStream) : Prop :=
  match s with InputStream _ _ _ _ => False | _ => True end.

(** ** The extractor *)

Section Extractor.



Lemma update_end_inv s e d x :
  update_end s e d = Ok x -> x = mkSilence s e d /\ within_tolerance x.
Proof.
  unfold update_end.
  destruct (Qle_bool (Qabs (e - s - d)) (1 # 10)) eqn:E; [|discriminate].
  intros [= <-]. split; [reflexivity|].
  unfold within_tolerance; simpl. now apply Qle_bool_iff.
Qed.



Lemma literal_Some lit : forall line r,
  literal lit line = Some r -> line = (lit ++ r)%string.
Proof.
  induction lit as [|a lit IH]; intros [|b line] r; simpl; try discriminate.
  - now intros [= <-].
  - now intros [= <-].
  - destruct (Ascii.eqb_spec a b) as [->|]; [|discriminate].
    intros H. now rewrite (IH _ _ H).
Qed.

(** A line that matches the end pattern does not match the start pattern. *)
Lemma end_line_is_no_start line :
  SILENCE_END_RE line <> None -> SILENCE_START_RE line = None.
Proof.
  unfold SILENCE_END_RE, SILENCE_START_RE.
  destruct (silencedetect_tag line) as [r|]; [|reflexivity].
  destruct (literal "silence_end: " r) as [r1|] eqn:L; [|congruence].
  intros _. apply literal_Some in L. subst r. reflexivity.
Qed.

End Extractor.

(** Scenario A, line by line. *)
Example scenario_a_start_line :
  SILENCE_START_RE "[silencedetect @ 0a1f] silence_start: 10.0"
  = Some "10.0"%string.
Proof. reflexivity. Qed.

Example scenario_a_end_line :
  SILENCE_END_RE "[silencedetect @ 0a1f] silence_end: 13.2 | silence_duration: 3.2"
  = Some ("13.2", "3.2")%string.
Proof. reflexivity. Qed.

Example scenario_a :
  silences ["[silencedetect @ 0a1f] silence_start: 10.0";
            "[silencedetect @ 0a1f] silence_end: 13.2 | silence_duration: 3.2"]%string
  = Ok [mkSilence (100 # 10) (132 # 10) (32 # 10)].
Proof. reflexivity. Qed.

Example other_lines_do_not_match :
  SILENCE_START_RE "[silencedetect @ 0x1f] silence_start: 10.0" = None
  /\ SILENCE_START_RE "[silencedetect @ 0a1f] silence_start: -0.5" = None
  /\ SILENCE_END_RE "[silencedetect @ 0a1f] silence_end: 13.2" = None.
Proof. repeat split. Qed.

Example float_of_groups :
  float "13.2" = Ok (132 # 10) /\ float "7" = Ok 7 /\ float "1." = Ok (1 # 1)
  /\ float ".5" = Ok (5 # 10) /\ float "." = Raise ValueError
  /\ float "1.2.3" = Raise ValueError.
Proof. repeat split. Qed.

(** An unfinished silence at the end of the log is dropped. *)
Example trailing_start_is_dropped :
  silences ["[silencedetect @ 0a1f] silence_start: 10.0"%string] = Ok [].
Proof. reflexivity. Qed.



(** C8, as the code has it: an end-of-silence line met while a start is
    awaited is skipped; the scan goes on in the same state and no error is
    raised for it. *)
Theorem C8_end_before_start_is_skipped :
  forall line rest sl,
    SILENCE_END_RE line <> None ->
    step None sl line = Ok (None, sl)
    /\ scan (line :: rest) None sl = scan rest None sl.
Proof.
  intros line rest sl H.
  assert (S : step None sl line = Ok (None, sl)).
  { unfold step. now rewrite (end_line_is_no_start _ H). }
  split; [exact S|]. cbn [scan]. now rewrite S.
Qed.

Lemma C8_witness :
  scan ["[silencedetect @ 0a1f] silence_end: 13.2 | silence_duration: 3.2";
        "[silencedetect @ 0a1f] silence_start: 20"]%string None []
  = scan ["[silencedetect @ 0a1f] silence_start: 20"%string] None [].
Proof.
  apply (C8_end_before_start_is_skipped
           "[silencedetect @ 0a1f] silence_end: 13.2 | silence_duration: 3.2").
  discriminate.
Defined.

(** C8 as stated fails: a log whose only event is an end of silence is
    read without any error, and yields no silence. *)
Lemma C8_counterexample :
  SILENCE_END_RE "[silencedetect @ 0a1f] silence_end: 13.2 | silence_duration: 3.2"
    = Some ("13.2", "3.2")%string
  /\ silences
       ["[silencedetect @ 0a1f] silence_end: 13.2 | silence_duration: 3.2"%string]
     = Ok []
  /\ ~ (exists e,
         silences
           ["[silencedetect @ 0a1f] silence_end: 13.2 | silence_duration: 3.2"%string]
         = Raise e).
Proof.
  repeat split. intros [e H]. discriminate H.
Qed.

(** ** Identifiers *)

Section Identifiers.

Lemma bind_Ok {A B} (m : M A) (k : A -> M B) next b next' :
  bind m k next = Ok (b, next') ->
  exists a n, m next = Ok (a, n) /\ k a n = Ok (b, next').
Proof.
  unfold bind. destruct (m next) as [[a n]|]; [|discriminate].
  intros H. now exists a, n.
Qed.

Lemma lift_Ok {A} (r : result A) next a next' :
  lift r next = Ok (a, next') -> r = Ok a /\ next' = next.
Proof.
  unfold lift. destruct r; [|discriminate]. now intros [= -> ->].
Qed.

Lemma assert_Ok b next u next' :
  assert b next = Ok (u, next') -> b = true /\ next' = next.
Proof.
  destruct b; [|discriminate]. now intros [= _ ->].
Qed.

(** A successful [next_id] hands out the successor of the counter. *)
Lemma next_id_Ok s : forall next i next',
  next_id s next = Ok (i, next') -> i = (next + 1)%Z /\ next' = (next + 1)%Z.
Proof.
  induction s using BaseStream_ind; simpl; intros next k next' E;
    try discriminate; eauto.
  now injection E as <- <-.
Qed.

Lemma new_InputStream_Ok src d a next s next' :
  new_InputStream src d a next = Ok (s, next') ->
  next' = (next + 1)%Z /\ stream_id s = next' /\
  exists d', s = InputStream src next' d' a.
Proof.
  intros H. apply bind_Ok in H as (i & n & Hi & H).
  apply next_id_Ok in Hi as [-> ->]. injection H as <- <-. eauto.
Qed.

Lemma new_PtsTrim_Ok src a b next s next' :
  new_PtsTrim src a b next = Ok (s, next') ->
  next' = (next + 1)%Z /\ s = PtsTrim src next' a b.
Proof.
  intros H. apply bind_Ok in H as (i & n & Hi & H).
  apply next_id_Ok in Hi as [-> ->]. now injection H as <- <-.
Qed.

Lemma new_Concat_Ok l next s next' :
  new_Concat l next = Ok (s, next') ->
  next' = (next + 1)%Z /\ s = Concat l next' /\ l <> [].
Proof.
  destruct l as [|s0 l]; [discriminate|]. intros H.
  apply bind_Ok in H as (i & n & Hi & H).
  apply next_id_Ok in Hi as [-> ->]. injection H as <- <-.
  repeat split. discriminate.
Qed.

Lemma new_Crossfade_Ok fo fi next s next' :
  new_Crossfade fo fi next = Ok (s, next') ->
  next' = (next + 1)%Z /\ s = Crossfade fo fi next' /\
  exists d_out d_in,
    duration fo = Ok d_out /\ duration fi = Ok d_in /\ d_out == d_in.
Proof.
  intros H.
  apply bind_Ok in H as (d1 & n1 & H1 & H). apply lift_Ok in H1 as [H1 ->].
  apply bind_Ok in H as (d2 & n2 & H2 & H). apply lift_Ok in H2 as [H2 ->].
  apply bind_Ok in H as (u & n3 & H3 & H). apply assert_Ok in H3 as [H3 ->].
  apply bind_Ok in H as (i & n & Hi & H).
  apply next_id_Ok in Hi as [-> ->]. injection H as <- <-.
  repeat split. exists d1, d2. repeat split; try assumption.
  now apply Qeq_bool_iff.
Qed.

Lemma fetch_Ok env p next s next' :
  fetch env p next = Ok (s, next') -> next' = next.
Proof.
  unfold fetch. destruct (nth_error env p); [|discriminate].
  now intros [= _ ->].
Qed.

Lemma fetch_all_Ok env ps : forall next l next',
  fetch_all env ps next = Ok (l, next') -> next' = next.
Proof.
  induction ps as [|p ps IH]; simpl; intros next l next' H.
  - now injection H as _ <-.
  - apply bind_Ok in H as (s & n & Hs & H). apply fetch_Ok in Hs as ->.
    apply bind_Ok in H as (l' & n' & Hl & H). apply IH in Hl as ->.
    now injection H as _ <-.
Qed.

(** Every constructor call that succeeds takes exactly one identifier,
    the successor of the counter, and leaves the counter on it. *)
Lemma construct_Ok env c next s next' :
  construct env c next = Ok (s, next') ->
  next' = (next + 1)%Z /\ stream_id s = (next + 1)%Z.
Proof.
  destruct c; simpl; intros H.
  - apply bind_Ok in H as (x & n & Hx & H). apply fetch_Ok in Hx as ->.
    apply new_InputStream_Ok in H as (-> & -> & _). now split.
  - apply bind_Ok in H as (x & n & Hx & H). apply fetch_Ok in Hx as ->.
    apply new_PtsTrim_Ok in H as (-> & ->). now split.
  - apply bind_Ok in H as (x & n & Hx & H). apply fetch_Ok in Hx as ->.
    apply bind_Ok in H as (y & n' & Hy & H). apply fetch_Ok in Hy as ->.
    apply new_Crossfade_Ok in H as (-> & -> & _). now split.
  - apply bind_Ok in H as (l & n & Hl & H). apply fetch_all_Ok in Hl as ->.
    apply new_Concat_Ok in H as (-> & -> & _). now split.
Qed.

(** The identifiers of a run of [k] calls from counter [next]. *)
Lemma build_ids cs : forall env next env' next',
  build cs env next = Ok (env', next') ->
  exists added,
    env' = env ++ added
    /\ map stream_id added
       = map (fun k => (next + 1 + Z.of_nat k)%Z) (seq 0 (List.length cs))
    /\ next' = (next + Z.of_nat (List.length cs))%Z.
Proof.
  induction cs as [|c cs IH]; intros env next env' next' H.
  - injection H as <- <-. exists []. rewrite app_nil_r. simpl.
    repeat split. lia.
  - cbn [build] in H. apply bind_Ok in H as (s & n & Hs & H).
    apply construct_Ok in Hs as [-> Hid].
    apply IH in H as (added & -> & Hids & ->).
    exists (s :: added). rewrite <- app_assoc. split; [reflexivity|].
    split.
    + cbn [map List.length seq]. rewrite Hid, Hids, <- seq_shift, map_map.
      f_equal; [lia|]. apply map_ext. intros k. lia.
    + cbn [List.length]. lia.
Qed.

Lemma affine_ids_sorted a n : forall b,
  StronglySorted Z.lt (map (fun k => (a + Z.of_nat k)%Z) (seq b n)).
Proof.
  induction n as [|n IH]; intros b; simpl; constructor.
  - apply IH.
  - apply Forall_forall. intros x Hx. apply in_map_iff in Hx as (k & <- & Hk).
    apply in_seq in Hk. lia.
Qed.

Lemma sorted_lt_NoDup (l : list Z) : StronglySorted Z.lt l -> NoDup l.
Proof.
  induction 1 as [|x l _ IH Hx]; constructor; [|assumption].
  intros Hin. rewrite Forall_forall in Hx. specialize (Hx _ Hin). lia.
Qed.

End Identifiers.

(** C1.  Every constructor call that succeeds ([InputStream], [PtsTrim],
    [Crossfade], [Concat]) takes exactly one identifier from the shared
    counter; over a run of K constructions from a fresh [StartStream] the
    identifiers are 0, 1, ..., K-1 in construction order, hence pairwise
    distinct and strictly increasing. *)
Theorem C1_identifiers_sequential :
  (forall env c next s next',
      construct env c next = Ok (s, next') ->
      next' = (next + 1)%Z /\ stream_id s = next')
  /\ (forall cs env next,
      build cs [StartStream] StartStream_next0 = Ok (env, next) ->
      List.length (assigned_ids env) = List.length cs
      /\ assigned_ids env = map Z.of_nat (seq 0 (List.length cs))
      /\ StronglySorted Z.lt (assigned_ids env)
      /\ NoDup (assigned_ids env)).
Proof.
  split.
  - intros env c next s next' H. apply construct_Ok in H as [-> ->]. now split.
  - intros cs env next H. apply build_ids in H as (added & -> & Hids & _).
    assert (E : assigned_ids ([StartStream] ++ added)
                = map Z.of_nat (seq 0 (List.length cs))).
    { unfold assigned_ids. cbn [app tl]. rewrite Hids.
      apply map_ext. intros k. unfold StartStream_next0. lia. }
    assert (S : StronglySorted Z.lt (assigned_ids ([StartStream] ++ added))).
    { rewrite E. apply (affine_ids_sorted 0 (List.length cs) 0%nat). }
    repeat split; try assumption.
    + rewrite E, length_map, length_seq. reflexivity.
    + now apply sorted_lt_NoDup.
Qed.

Lemma C1_witness :
  exists env next,
    build [MkInputStream 0 (Some "main"%string) "0";
           MkPtsTrim 1 0 (3 # 2); MkPtsTrim 1 (3 # 2) 2; MkPtsTrim 1 4 (9 # 2);
           MkCrossfade 3 4; MkConcat [2; 5]%nat]
      [StartStream] StartStream_next0 = Ok (env, next)
    /\ assigned_ids env = [0; 1; 2; 3; 4; 5]%Z.
Proof.
  eexists. eexists. split.
  - vm_compute. reflexivity.
  - refine (proj1 (proj2 (proj2 C1_identifiers_sequential
      [MkInputStream 0 (Some "main"%string) "0";
       MkPtsTrim 1 0 (3 # 2); MkPtsTrim 1 (3 # 2) 2; MkPtsTrim 1 4 (9 # 2);
       MkCrossfade 3 4; MkConcat [2; 5]%nat] _ _ _))).
    vm_compute. reflexivity.
Defined.

(** ** Crossfade construction *)

(** C3.  [Crossfade] checks the two durations in its constructor: with
    differing durations the construction raises and no node exists whose
    [filters] could run; trims of 0.4 s and 0.6 s are such a pair; and a
    crossfade that was constructed has equal durations. *)
Theorem C3_crossfade_checked_at_construction :
  (forall fade_out fade_in d_out d_in next,
      duration fade_out = Ok d_out ->
      duration fade_in = Ok d_in ->
      ~ d_out == d_in ->
      new_Crossfade fade_out fade_in next = Raise AssertionError)
  /\ (forall src1 src2 i j a b next,
      new_Crossfade (PtsTrim src1 i a (a + (4 # 10)))
                    (PtsTrim src2 j b (b + (6 # 10))) next
      = Raise AssertionError)
  /\ (forall fade_out fade_in next c next',
      new_Crossfade fade_out fade_in next = Ok (c, next') ->
      c = Crossfade fade_out fade_in next'
      /\ exists d_out d_in,
           duration fade_out = Ok d_out /\ duration fade_in = Ok d_in
           /\ d_out == d_in).
Proof.
  assert (A : forall fade_out fade_in d_out d_in next,
      duration fade_out = Ok d_out ->
      duration fade_in = Ok d_in ->
      ~ d_out == d_in ->
      new_Crossfade fade_out fade_in next = Raise AssertionError).
  { intros fo fi d1 d2 next H1 H2 Hne.
    unfold new_Crossfade, bind, lift. rewrite H1, H2.
    destruct (Qeq_bool d1 d2) eqn:E; [|reflexivity].
    apply Qeq_bool_iff in E. contradiction. }
  split; [exact A|]. split.
  - intros src1 src2 i j a b next.
    apply (A _ _ (a + (4 # 10) - a) (b + (6 # 10) - b)); try reflexivity.
    intros H. lra.
  - intros fo fi next c next' H.
    apply new_Crossfade_Ok in H as (_ & -> & Hd). now split.
Qed.

Lemma C3_witness :
  new_Crossfade (PtsTrim StartStream 0 1 (14 # 10))
                (PtsTrim StartStream 1 2 (26 # 10)) 1%Z
  = Raise AssertionError.
Proof.
  apply (proj1 C3_crossfade_checked_at_construction
           _ _ ((14 # 10) - 1) ((26 # 10) - 2) 1%Z).
  - reflexivity.
  - reflexivity.
  - intros H. vm_compute in H. discriminate H.
Defined.

(** ** Emission order *)

Section EmissionOrder.

Variable str_float : Q -> string.

Local Abbreviation emit s := (filters str_float s []).

Lemma fold_filters_app (l : list BaseStream) :
  Forall (fun x => forall fl, filters str_float x fl = fl ++ emit x) l ->
  forall fl,
    fold_left (fun fl x => filters str_float x fl) l fl
    = fl ++ flat_map (fun x => emit x) l.
Proof.
  induction 1 as [|x l Hx _ IH]; intros fl; simpl.
  - now rewrite app_nil_r.
  - rewrite IH, Hx, <- app_assoc. reflexivity.
Qed.

(** Emitting into a list appends to it what is emitted into the empty one. *)
Lemma filters_app s : forall fl, filters str_float s fl = fl ++ emit s.
Proof.
  induction s as [|src i d a IH|src i a b IH|l i IH|fo fi i IHo IHi]
    using BaseStream_ind; intros fl.
  - simpl. now rewrite app_nil_r.
  - simpl. apply IH.
  - cbn [filters]. rewrite (IH fl), (IH []). simpl. now rewrite app_assoc.
  - cbn [filters]. rewrite (fold_filters_app l IH fl), (fold_filters_app l IH []).
    simpl. now rewrite app_assoc.
  - cbn [filters]. rewrite (IHi (filters str_float fo fl)), (IHo fl).
    rewrite (IHi (emit fo)). simpl. now rewrite !app_assoc.
Qed.

(** A node emits what its predecessors emit, in their order, and then
    its own expressions. *)
Lemma filters_predecessors_first s fl :
  filters str_float s fl
  = fl ++ flat_map (fun p => emit p) (predecessors s) ++ own_filters str_float s.
Proof.
  rewrite filters_app. f_equal.
  destruct s as [|src i d a|src i a b|l i|fo fi i]; cbn [filters predecessors flat_map].
  - reflexivity.
  - now rewrite !app_nil_r.
  - now rewrite app_nil_r.
  - f_equal. apply fold_filters_app.
    apply Forall_forall. intros x _. apply filters_app.
  - rewrite filters_app, app_nil_r. reflexivity.
Qed.

(** The emission of a node of the graph is a block of the emission of
    the root. *)
Lemma reaches_block root n :
  reaches root n -> exists pre post, emit root = pre ++ emit n ++ post.
Proof.
  induction 1 as [r|r p n Hp _ (pre & post & IH)].
  - exists [], []. now rewrite app_nil_r.
  - rewrite (filters_predecessors_first r []). cbn [app].
    apply in_split in Hp as (l1 & l2 & ->).
    rewrite flat_map_app. cbn [flat_map]. rewrite IH.
    exists (flat_map (fun p => emit p) l1 ++ pre).
    exists (post ++ flat_map (fun p => emit p) l2 ++ own_filters str_float r).
    now rewrite <- !app_assoc.
Qed.

End EmissionOrder.

(** C2.  [filters] is depth first, predecessors before self: what a node
    adds to the list is what its predecessors emit, in their order,
    followed by the node's own expressions; and for every node of a graph
    this block appears, in that order, in the list the root emits. *)
Theorem C2_predecessors_emit_first :
  forall (str_float : Q -> string),
    (forall s fl,
        filters str_float s fl
        = fl ++ flat_map (fun p => filters str_float p []) (predecessors s)
             ++ own_filters str_float s)
    /\ (forall root n,
        reaches root n ->
        exists pre post,
          filters str_float root []
          = pre ++ flat_map (fun p => filters str_float p []) (predecessors n)
                ++ own_filters str_float n ++ post).
Proof.
  intros str_float. split.
  - apply filters_predecessors_first.
  - intros root n H. apply (reaches_block str_float) in H as (pre & post & E).
    exists pre, post. rewrite E, (filters_predecessors_first str_float n []).
    cbn [app]. now rewrite <- app_assoc.
Qed.

Lemma C2_witness :
  exists pre post,
    filters (fun _ => "t"%string)
      (Concat [Crossfade (PtsTrim (InputStream StartStream 0 "main" "0") 1 0 1)
                         (PtsTrim (InputStream StartStream 0 "main" "0") 2 3 4) 3] 4)
      []
    = pre
      ++ flat_map (fun p => filters (fun _ => "t"%string) p [])
           (predecessors
              (Crossfade (PtsTrim (InputStream StartStream 0 "main" "0") 1 0 1)
                         (PtsTrim (InputStream StartStream 0 "main" "0") 2 3 4) 3))
      ++ own_filters (fun _ => "t"%string)
           (Crossfade (PtsTrim (InputStream StartStream 0 "main" "0") 1 0 1)
                      (PtsTrim (InputStream StartStream 0 "main" "0") 2 3 4) 3)
      ++ post.
Proof.
  apply (proj2 (C2_predecessors_emit_first (fun _ => "t"%string))).
  eapply reaches_step; [left; reflexivity | apply reaches_self].
Defined.

(** ** The planner *)

Section Planner.

Lemma next_id_rooted s : rooted s = true ->
  forall next, next_id s next = Ok ((next + 1)%Z, (next + 1)%Z).
Proof.
  induction s using BaseStream_ind; simpl; intros R next;
    try discriminate; auto.
Qed.

Lemma new_PtsTrim_rooted cs a b next :
  rooted cs = true ->
  new_PtsTrim cs a b next = Ok (PtsTrim cs (next + 1) a b, (next + 1)%Z).
Proof.
  intros R. unfold new_PtsTrim, bind. now rewrite (next_id_rooted cs R).
Qed.

Lemma fade_in_matches (a b s : Q) : Qeq_bool (b - a) (s + (b - a) - s) = true.
Proof. apply Qeq_bool_iff. ring. Qed.

(** The step, computed. *)
Lemma do_crossfade_main_closed cs start_ts end_ts fade_out streams do_fade_out next :
  rooted cs = true ->
  pending cs fade_out ->
  do_crossfade_main cs start_ts end_ts fade_out streams do_fade_out next
  = Ok (step_fade_out cs start_ts end_ts fade_out do_fade_out next,
        step_streams cs start_ts end_ts fade_out streams do_fade_out next,
        step_next fade_out do_fade_out next).
Proof.
  intros R P.
  unfold do_crossfade_main, step_fade_out, step_streams, step_next,
    step_kept, step_main, step_cross.
  destruct fade_out as [f|].
  - destruct P as (i & a & b & ->).
    unfold bind, lift, new_Crossfade, bind, lift.
    cbn [kwargs_end kwargs_start fade_duration step_used].
    rewrite (new_PtsTrim_rooted cs _ _ next R).
    cbn [duration next_id]. rewrite fade_in_matches.
    cbn [assert]. unfold ret at 1. cbv beta iota.
    rewrite (next_id_rooted cs R). unfold ret at 1 2. cbv beta iota.
    rewrite (new_PtsTrim_rooted cs _ _ _ R). cbn [duration].
    replace (next + 1 + 1)%Z with (next + 2)%Z by lia.
    destruct do_fade_out.
    + rewrite (new_PtsTrim_rooted cs _ _ _ R). unfold ret.
      replace (next + 2 + 1 + 1)%Z with (next + 2 + 2)%Z by lia.
      destruct (Qpos_bool _); [rewrite <- app_assoc|rewrite app_nil_r];
        reflexivity.
    + unfold ret.
      destruct (Qpos_bool _); [rewrite <- app_assoc|rewrite app_nil_r];
        reflexivity.
  - unfold bind, lift, ret. cbv beta iota. cbn [fade_duration step_used].
    rewrite (new_PtsTrim_rooted cs _ _ _ R). cbn [duration app].
    replace (next + 0 + 1)%Z with (next + 1)%Z by lia.
    destruct do_fade_out.
    + rewrite (new_PtsTrim_rooted cs _ _ _ R).
      replace (next + 1 + 1)%Z with (next + 0 + 2)%Z by lia.
      destruct (Qpos_bool _); [|rewrite app_nil_r]; reflexivity.
    + replace (next + 0 + 1)%Z with (next + 1)%Z by lia.
      destruct (Qpos_bool _); [|rewrite app_nil_r]; reflexivity.
Qed.

Lemma step_fade_out_pending cs s e fo dfo next :
  pending cs (step_fade_out cs s e fo dfo next).
Proof.
  unfold step_fade_out. destruct dfo; simpl; eauto.
Qed.

(** The loop, computed. *)
Lemma boundaries_closed_eq cs silences : rooted cs = true ->
  forall start_ts fade_out streams next,
    pending cs fade_out ->
    boundaries cs silences start_ts fade_out streams next
    = Ok (fst (boundaries_closed cs silences start_ts fade_out streams next),
          snd (boundaries_closed cs silences start_ts fade_out streams next))
    /\ pending cs
         (snd (fst (fst (boundaries_closed cs silences start_ts fade_out streams next)))).
Proof.
  intros R. induction silences as [|sil rest IH];
    intros start_ts fade_out streams next P.
  - simpl. now split.
  - cbn [boundaries boundaries_closed]. unfold bind at 1.
    rewrite (do_crossfade_main_closed _ _ _ _ _ _ _ R P).
    apply IH. apply step_fade_out_pending.
Qed.

(** An invariant of the loop: it is enough to keep it over one step. *)
Lemma boundaries_closed_inv cs
    (I : list Silence -> Q -> option BaseStream -> list BaseStream -> Z -> Prop) :
  (forall sil rest s fo streams next,
      pending cs fo ->
      I (sil :: rest) s fo streams next ->
      I rest (end_ sil - END_SILENCE_LENGTH)
        (step_fade_out cs s (start sil + START_SILENCE_LENGTH) fo true next)
        (step_streams cs s (start sil + START_SILENCE_LENGTH) fo streams true next)
        (step_next fo true next)) ->
  forall silences s fo streams next,
    pending cs fo ->
    I silences s fo streams next ->
    exists s' fo' streams' next',
      boundaries_closed cs silences s fo streams next = (s', fo', streams', next')
      /\ pending cs fo' /\ I [] s' fo' streams' next'.
Proof.
  intros Hstep sils. induction sils as [|sil rest IH];
    intros s fo streams next P HI.
  - exists s, fo, streams, next. now repeat split.
  - cbn [boundaries_closed]. apply IH.
    + apply step_fade_out_pending.
    + now apply Hstep.
Qed.

(** The plan, computed: planning never raises. *)
Lemma plan_closed_eq video_duration silences audio_stream_id :
  plan video_duration silences audio_stream_id StartStream_next0
  = Ok (plan_closed video_duration silences audio_stream_id).
Proof.
  unfold plan, plan_closed. unfold bind at 1.
  change (new_InputStream StartStream (Some "main"%string) audio_stream_id
            StartStream_next0)
    with (Ok (combined_stream audio_stream_id, 0%Z)).
  cbv beta iota. unfold bind at 1.
  destruct (boundaries_closed_eq (combined_stream audio_stream_id) silences
              eq_refl 0 None [] 0%Z I) as [E P].
  rewrite E.
  destruct (boundaries_closed (combined_stream audio_stream_id) silences 0 None [] 0)
    as [[[s fo] streams] next].
  cbn [fst snd] in *. unfold bind at 1.
  rewrite (do_crossfade_main_closed (combined_stream audio_stream_id)
             _ _ _ _ _ _ eq_refl P).
  reflexivity.
Qed.

Lemma Qpos_bool_true d : Qpos_bool d = true <-> 0 < d.
Proof.
  unfold Qpos_bool. rewrite negb_true_iff. split.
  - intros H. apply Qnot_le_lt. intros L. apply Qle_bool_iff in L. congruence.
  - intros H. destruct (Qle_bool d 0) eqn:E; [|reflexivity].
    apply Qle_bool_iff in E. exfalso. eapply Qlt_not_le; eassumption.
Qed.

Lemma Qpos_bool_false d : Qpos_bool d = false <-> d <= 0.
Proof.
  unfold Qpos_bool. rewrite negb_false_iff. apply Qle_bool_iff.
Qed.

Lemma main_clip_durations_app l1 l2 :
  main_clip_durations (l1 ++ l2) = main_clip_durations l1 ++ main_clip_durations l2.
Proof. apply flat_map_app. Qed.

Lemma fade_out_durations_app l1 l2 :
  fade_out_durations (l1 ++ l2) = fade_out_durations l1 ++ fade_out_durations l2.
Proof. apply flat_map_app. Qed.

Lemma step_cross_no_main cs s fo next :
  main_clip_durations (step_cross cs s fo next) = [].
Proof. now destruct fo. Qed.




Lemma step_streams_balanced cs s e fo streams dfo next :
  pending cs fo ->
  Forall balanced streams ->
  Forall balanced (step_streams cs s e fo streams dfo next).
Proof.
  intros P H. unfold step_streams. rewrite !Forall_app. repeat split.
  - assumption.
  - destruct fo as [f|]; [|constructor].
    destruct P as (i & a & b & ->). constructor; [|constructor].
    exists (b - a), (s + (b - a) - s). repeat split. ring.
  - unfold step_kept. destruct (Qpos_bool _); repeat constructor.
Qed.

Lemma plan_closed_balanced T sils a :
  Forall balanced (fst (plan_closed T sils a)).
Proof.
  unfold plan_closed.
  destruct (boundaries_closed_inv (combined_stream a)
              (fun _ _ _ streams _ => Forall balanced streams))
    with (silences := sils) (s := 0) (fo := @None BaseStream)
         (streams := @nil BaseStream) (next := 0%Z)
    as (s' & fo' & streams' & next' & E & P & H).
  - intros. now apply step_streams_balanced.
  - exact I.
  - constructor.
  - rewrite E. cbn [fst]. now apply step_streams_balanced.
Qed.

(** [next_id] raises nothing but [NotImplementedError]. *)
Lemma next_id_Raise s : forall next e,
  next_id s next = Raise e -> e = NotImplementedError.
Proof.
  induction s using BaseStream_ind; simpl; intros next e E;
    try discriminate; eauto; now injection E.
Qed.

Lemma new_Concat_Raise l next e :
  new_Concat l next = Raise e -> e = IndexError \/ e = NotImplementedError.
Proof.
  destruct l as [|s0 l]; simpl.
  - intros [= <-]. now left.
  - unfold bind. destruct (next_id s0 next) as [[i n]|e'] eqn:E.
    + discriminate.
    + intros [= <-]. right. eapply next_id_Raise; eassumption.
Qed.

Lemma START_SILENCE_LENGTH_value : START_SILENCE_LENGTH == 9 # 4.
Proof. reflexivity. Qed.

Lemma END_SILENCE_LENGTH_value : END_SILENCE_LENGTH == 3 # 4.
Proof. reflexivity. Qed.

Lemma FADE_LENGTH_value : FADE_LENGTH == 1 # 2.
Proof. reflexivity. Qed.

(** When the span is long enough the fade-out has the default length. *)
Lemma new_fade_out_default s e fod :
  s + fod < e - FADE_LENGTH -> new_fade_out s e fod true = FADE_LENGTH.
Proof.
  intros H. unfold new_fade_out.
  destruct (Qle_bool (e - FADE_LENGTH) (s + fod)) eqn:E; [|reflexivity].
  apply Qle_bool_iff in E. exfalso. eapply Qlt_not_le; eassumption.
Qed.


Lemma step_cross_fade_out cs s fo next :
  pending cs fo ->
  fade_out_durations (step_cross cs s fo next)
  = match fo with Some _ => [fade_duration fo] | None => [] end.
Proof.
  destruct fo as [f|]; [|reflexivity]. now intros (i & a & b & ->).
Qed.

Lemma step_kept_no_fade cs s e fo dfo next :
  fade_out_durations (step_kept cs s e fo dfo next) = [].
Proof. unfold step_kept. now destruct (Qpos_bool _). Qed.

Lemma step_streams_fades cs s e fo streams dfo next :
  pending cs fo ->
  Forall (fun d => d == FADE_LENGTH) (fade_out_durations streams) ->
  fo = None \/ fade_duration fo == FADE_LENGTH ->
  Forall (fun d => d == FADE_LENGTH)
    (fade_out_durations (step_streams cs s e fo streams dfo next)).
Proof.
  intros P H F. unfold step_streams.
  rewrite !fade_out_durations_app, step_kept_no_fade, app_nil_r.
  rewrite (step_cross_fade_out _ _ _ _ P).
  apply Forall_app. split; [assumption|].
  destruct fo as [f|]; [|constructor].
  destruct F as [F|F]; [discriminate|]. now repeat constructor.
Qed.

Lemma chrono_step cs sil rest s fo streams next :
  pending cs fo ->
  chrono_inv (sil :: rest) s fo streams ->
  chrono_inv rest (end_ sil - END_SILENCE_LENGTH)
    (step_fade_out cs s (start sil + START_SILENCE_LENGTH) fo true next)
    (step_streams cs s (start sil + START_SILENCE_LENGTH) fo streams true next).
Proof.
  intros P (t & [Ht C] & B & H & F).
  assert (D : new_fade_out s (start sil + START_SILENCE_LENGTH)
                (fade_duration fo) true = FADE_LENGTH).
  { apply new_fade_out_default.
    rewrite START_SILENCE_LENGTH_value, FADE_LENGTH_value. lra. }
  exists (end_ sil). split; [exact C|].
  unfold step_fade_out. rewrite D. cbn [fade_duration].
  repeat split.
  - rewrite END_SILENCE_LENGTH_value, FADE_LENGTH_value. lra.
  - now apply step_streams_fades.
  - right. ring.
Qed.


End Planner.



(** C10.  With exact arithmetic the fade-in of a crossfade is built with
    the duration of the pending fade-out, so the assertion of
    [Crossfade.__init__] holds in every crossfade the planner builds:
    a planning step with a pending fade-out returns, planning returns for
    every list of silences and every total duration with all its
    crossfades balanced, and the compilation never raises
    [AssertionError]. *)
Theorem C10_planner_never_fails_the_crossfade_check :
  (forall cs i a b j start_ts next,
      rooted cs = true ->
      new_Crossfade (PtsTrim cs i a b)
        (PtsTrim cs j start_ts (start_ts + (b - a))) next
      = Ok (Crossfade (PtsTrim cs i a b)
              (PtsTrim cs j start_ts (start_ts + (b - a))) (next + 1),
            (next + 1)%Z))
  /\ (forall cs start_ts end_ts fade_out streams do_fade_out next,
      rooted cs = true ->
      pending cs fade_out ->
      exists r,
        do_crossfade_main cs start_ts end_ts fade_out streams do_fade_out next
        = Ok r)
  /\ (forall video_duration sils audio_stream_id,
      exists streams next,
        plan video_duration sils audio_stream_id StartStream_next0
        = Ok (streams, next)
        /\ Forall balanced streams)
  /\ (forall video_duration sils audio_stream_id,
      run (silencecutterfade video_duration sils audio_stream_id)
      <> Raise AssertionError).
Proof.
  repeat split.
  - intros cs i a b j s next R.
    unfold new_Crossfade, bind, lift. cbn [duration].
    rewrite fade_in_matches. cbn [assert ret next_id].
    now rewrite (next_id_rooted cs R).
  - intros cs s e fo streams dfo next R P. eexists.
    apply (do_crossfade_main_closed _ _ _ _ _ _ _ R P).
  - intros T sils a. rewrite plan_closed_eq.
    exists (fst (plan_closed T sils a)), (snd (plan_closed T sils a)).
    split; [now destruct (plan_closed T sils a)|].
    apply plan_closed_balanced.
  - intros T sils a. unfold run, silencecutterfade, bind.
    rewrite plan_closed_eq. destruct (plan_closed T sils a) as [streams next].
    destruct (new_Concat streams next) as [[c n]|e] eqn:E; [discriminate|].
    apply new_Concat_Raise in E as [-> | ->]; discriminate.
Qed.

Lemma C10_witness :
  exists r,
    do_crossfade_main (combined_stream "0") (93 # 4) 60
      (Some (PtsTrim (combined_stream "0") 2 (87 # 4) (89 # 4))) [] false 2%Z
    = Ok r.
Proof.
  apply (proj1 (proj2 C10_planner_never_fails_the_crossfade_check)).
  - reflexivity.
  - simpl. eauto.
Defined.

(** C5, with the values the planner computes.  For a total duration of
    60 s and the one silence (20, 24, 4), with the 3 s threshold and the
    75/25 split, the boundary pair is [end_ts] = 20 + 0.75 * 3 = 22.25 and
    [start_ts] = 24 - 0.25 * 3 = 23.25, and the plan is: the main clip
    [0, 21.75), one crossfade of [21.75, 22.25) into [23.25, 23.75), and
    the final clip [23.75, 60). *)
Theorem C5_scenario_b_plan :
  (MAX_SILENCE_LENGTH == 3
   /\ START_SILENCE_LENGTH == (3 # 4) * MAX_SILENCE_LENGTH
   /\ END_SILENCE_LENGTH == (1 - (3 # 4)) * MAX_SILENCE_LENGTH
   /\ FADE_LENGTH == 1 # 2)
  /\ (forall cs sil rest start_ts fade_out streams next,
      boundaries cs (sil :: rest) start_ts fade_out streams next
      = bind (do_crossfade_main cs start_ts (start sil + START_SILENCE_LENGTH)
                fade_out streams true)
          (fun r => boundaries cs rest (end_ sil - END_SILENCE_LENGTH)
                      (fst r) (snd r))
          next)
  /\ (start (mkSilence 20 24 4) + START_SILENCE_LENGTH == 89 # 4
      /\ end_ (mkSilence 20 24 4) - END_SILENCE_LENGTH == 93 # 4)
  /\ (forall audio_stream_id,
      exists streams next,
        plan 60 [mkSilence 20 24 4] audio_stream_id StartStream_next0
        = Ok (streams, next)
        /\ map describe streams
           = [Clip 0 (87 # 4);
              Fade (87 # 4) (89 # 4) (93 # 4) (95 # 4);
              Clip (95 # 4) 60]).
Proof.
  split; [now repeat split|]. split; [|split; [now split|]].
  - intros cs sil rest s fo streams next. cbn [boundaries]. unfold bind.
    destruct (do_crossfade_main cs s (start sil + START_SILENCE_LENGTH)
                fo streams true next) as [[[fo' streams'] next']|]; reflexivity.
  - intros a. rewrite plan_closed_eq.
    exists (fst (plan_closed 60 [mkSilence 20 24 4] a)),
      (snd (plan_closed 60 [mkSilence 20 24 4] a)).
    split; [now destruct (plan_closed 60 [mkSilence 20 24 4] a)|].
    vm_compute. reflexivity.
Qed.

(** C5 as stated fails: the plan of scenario B does not start with the
    clip [0, 20.75) and does not end with the clip [23.0, 60). *)
Lemma C5_counterexample :
  exists streams next,
    plan 60 [mkSilence 20 24 4] "0" StartStream_next0 = Ok (streams, next)
    /\ ~ (exists x, map describe streams = [Clip 0 (83 # 4); x; Clip 23 60]).
Proof.
  eexists. eexists. split.
  - vm_compute. reflexivity.
  - intros [x H]. vm_compute in H. discriminate H.
Qed.




(** ** Sharing in the compiled graph *)

Section Sharing.

Lemma sorted_extend (l fresh : list Z) (next next' : Z) :
  StronglySorted Z.lt l ->
  Forall (fun i => (0 < i <= next)%Z) l ->
  StronglySorted Z.lt fresh ->
  Forall (fun i => (next < i <= next')%Z) fresh ->
  (0 <= next <= next')%Z ->
  StronglySorted Z.lt (l ++ fresh)
  /\ Forall (fun i => (0 < i <= next')%Z) (l ++ fresh).
Proof.
  intros Sl Bl Sf Bf Hn. split.
  - induction Sl as [|x l Sl IH Hx]; [exact Sf|].
    cbn [app]. inversion Bl as [|? ? Bx Bl']; subst. constructor.
    + now apply IH.
    + apply Forall_app. split; [exact Hx|].
      eapply Forall_impl; [|exact Bf]. cbv beta. lia.
  - apply Forall_app. split.
    + eapply Forall_impl; [|exact Bl]. cbv beta. lia.
    + eapply Forall_impl; [|exact Bf]. cbv beta. lia.
Qed.

Lemma step_kept_planned cs s e fo dfo next :
  Forall (planned cs) (step_kept cs s e fo dfo next).
Proof.
  unfold step_kept, step_main. destruct (Qpos_bool _); repeat constructor.
Qed.

Lemma step_cross_planned cs s fo next :
  pending cs fo -> Forall (planned cs) (step_cross cs s fo next).
Proof.
  destruct fo as [f|]; [|constructor].
  intros (i & a & b & ->). repeat constructor.
Qed.

(** The identifiers after a step: the old ones, then fresh ones. *)
Lemma step_ids cs s e fo streams dfo next :
  pending cs fo ->
  exists fresh,
    flat_map seg_ids (step_streams cs s e fo streams dfo next)
      ++ pending_ids (step_fade_out cs s e fo dfo next)
    = (flat_map seg_ids streams ++ pending_ids fo) ++ fresh
    /\ StronglySorted Z.lt fresh
    /\ Forall (fun i => (next < i <= step_next fo dfo next)%Z) fresh.
Proof.
  intros P. unfold step_streams, step_fade_out, step_next, step_kept, step_main.
  rewrite !flat_map_app.
  destruct fo as [f|].
  - destruct P as (i & a & b & ->).
    cbn [step_cross step_used flat_map seg_ids pending_ids stream_id app].
    destruct (Qpos_bool _), dfo;
      cbn [flat_map seg_ids pending_ids stream_id app];
      eexists;
      (split; [rewrite <- !app_assoc; cbn [app]; reflexivity|]); split;
      repeat constructor; lia.
  - cbn [step_cross step_used flat_map seg_ids pending_ids stream_id app].
    destruct (Qpos_bool _), dfo;
      cbn [flat_map seg_ids pending_ids stream_id app];
      eexists;
      (split; [rewrite <- !app_assoc; cbn [app]; reflexivity|]); split;
      repeat constructor; lia.
Qed.

Lemma step_next_le fo dfo next : (next <= step_next fo dfo next)%Z.
Proof. unfold step_next, step_used. destruct fo, dfo; lia. Qed.

Lemma ids_inv_step cs s e fo streams dfo next :
  pending cs fo ->
  (0 <= next)%Z ->
  ids_inv cs fo streams next ->
  ids_inv cs (step_fade_out cs s e fo dfo next)
    (step_streams cs s e fo streams dfo next) (step_next fo dfo next).
Proof.
  intros P Hn (Hp & Hs & Hb).
  destruct (step_ids cs s e fo streams dfo next P) as (fresh & E & Sf & Bf).
  unfold ids_inv. rewrite E.
  pose proof (step_next_le fo dfo next) as Hle.
  destruct (sorted_extend _ fresh next (step_next fo dfo next) Hs Hb Sf Bf)
    as [S B]; [lia|].
  repeat split; try assumption.
  unfold step_streams. rewrite !Forall_app. repeat split.
  - assumption.
  - now apply step_cross_planned.
  - apply step_kept_planned.
Qed.

Lemma plan_closed_ids T sils a :
  ids_inv (combined_stream a) None (fst (plan_closed T sils a))
    (snd (plan_closed T sils a)).
Proof.
  unfold plan_closed.
  destruct (boundaries_closed_inv (combined_stream a)
              (fun _ _ fo streams next =>
                 (0 <= next)%Z /\ ids_inv (combined_stream a) fo streams next))
    with (silences := sils) (s := 0) (fo := @None BaseStream)
         (streams := @nil BaseStream) (next := 0%Z)
    as (s' & fo' & streams' & next' & E & P & Hn & H).
  - intros sil rest s fo streams next P [Hn H]. split.
    + pose proof (step_next_le fo true next). lia.
    + now apply ids_inv_step.
  - exact I.
  - split; [lia|]. repeat split; constructor.
  - rewrite E. cbn [fst snd].
    apply (ids_inv_step _ s' T fo' streams' false next' P Hn H).
Qed.

Lemma NoDup_app_disjoint {A} (l1 l2 : list A) c :
  NoDup (l1 ++ l2) -> In c l1 -> In c l2 -> False.
Proof.
  induction l1 as [|x l1 IH]; [contradiction|].
  cbn [app]. intros N [->|H1] H2.
  - apply NoDup_cons_iff in N as [N _]. apply N, in_or_app. now right.
  - apply NoDup_cons_iff in N as [_ N]. now apply IH.
Qed.

(** In a duplicate-free concatenation an element belongs to one block. *)
Lemma flat_map_NoDup_same {A B} (f : A -> list B) l x1 x2 c :
  NoDup (flat_map f l) ->
  In x1 l -> In x2 l -> In c (f x1) -> In c (f x2) -> x1 = x2.
Proof.
  induction l as [|y l IH]; [contradiction|].
  cbn [flat_map]. intros N [->|H1] [->|H2] C1 C2.
  - reflexivity.
  - exfalso. apply (NoDup_app_disjoint _ _ c N C1).
    apply in_flat_map. eauto.
  - exfalso. apply (NoDup_app_disjoint _ _ c N C2).
    apply in_flat_map. eauto.
  - apply NoDup_app_remove_l in N. now apply IH.
Qed.

Lemma reaches_StartStream n : reaches StartStream n -> n = StartStream.
Proof.
  inversion 1 as [|? p ? Hp]; subst; [reflexivity|destruct Hp].
Qed.

Lemma reaches_combined_stream a n :
  reaches (combined_stream a) n -> n = combined_stream a \/ n = StartStream.
Proof.
  inversion 1 as [|? p ? Hp Hr]; subst; [now left|].
  destruct Hp as [<-|[]]. right. now apply reaches_StartStream.
Qed.

(** The nodes below a trim of the input hold nothing but the input and
    the [StartStream]. *)
Lemma holder_below_clip a i x y p n :
  reaches (PtsTrim (combined_stream a) i x y) p ->
  In n (predecessors p) ->
  n = combined_stream a \/ n = StartStream.
Proof.
  inversion 1 as [|? q ? Hq Hr]; subst.
  - intros [<-|[]]. now left.
  - destruct Hq as [<-|[]].
    apply reaches_combined_stream in Hr as [->| ->].
    + intros [<-|[]]. now right.
    + intros [].
Qed.

(** Who holds a node that is neither the input nor the [StartStream]:
    the [Concat], or a crossfade of the plan. *)
Lemma holder_in_plan a streams K p n :
  Forall (planned (combined_stream a)) streams ->
  reaches (Concat streams K) p ->
  In n (predecessors p) ->
  n <> StartStream -> n <> combined_stream a ->
  (p = Concat streams K /\ In n streams)
  \/ (In p streams /\ In (stream_id n) (seg_ids p)
      /\ (exists fo fi k, p = Crossfade fo fi k)
      /\ exists i x y, n = PtsTrim (combined_stream a) i x y).
Proof.
  intros Hp Hr Hn N1 N2.
  inversion Hr as [|? x ? Hx Hxp]; subst; [now left|].
  cbn [predecessors] in Hx. right.
  rewrite Forall_forall in Hp. specialize (Hp _ Hx).
  destruct Hp as [i u v|i u v j c d k].
  - destruct (holder_below_clip _ _ _ _ _ _ Hxp Hn); contradiction.
  - inversion Hxp as [|? q ? Hq Hqp]; subst.
    + split; [exact Hx|].
      destruct Hn as [<-|[<-|[]]]; cbn; (split; [tauto|]);
        (split; repeat eexists).
    + destruct Hq as [<-|[<-|[]]];
        destruct (holder_below_clip _ _ _ _ _ _ Hqp Hn); contradiction.
Qed.

Lemma planned_own_id cs x : planned cs x -> In (stream_id x) (seg_ids x).
Proof. intros [i u v|i u v j c d k]; cbn; auto. Qed.

(** Every trim of the plan is a trim of the input, and the input is the
    only [InputStream]. *)
Lemma reaches_plan_shape a streams K n :
  Forall (planned (combined_stream a)) streams ->
  reaches (Concat streams K) n ->
  match n with
  | PtsTrim src _ _ _ => src = combined_stream a
  | InputStream src _ _ _ => n = combined_stream a /\ src = StartStream
  | _ => True
  end.
Proof.
  intros Hp Hr.
  assert (C : forall m, reaches (combined_stream a) m ->
              match m with
              | PtsTrim src _ _ _ => src = combined_stream a
              | InputStream src _ _ _ => m = combined_stream a /\ src = StartStream
              | _ => True
              end).
  { intros m Hm. apply reaches_combined_stream in Hm as [->| ->]; cbn; auto. }
  assert (T : forall i u v m, reaches (PtsTrim (combined_stream a) i u v) m ->
              match m with
              | PtsTrim src _ _ _ => src = combined_stream a
              | InputStream src _ _ _ => m = combined_stream a /\ src = StartStream
              | _ => True
              end).
  { intros i u v m Hm. inversion Hm as [|? q ? Hq Hqm]; subst; [reflexivity|].
    destruct Hq as [<-|[]]. now apply C. }
  inversion Hr as [|? x ? Hx Hxn]; subst; [exact I|].
  cbn [predecessors] in Hx.
  rewrite Forall_forall in Hp. specialize (Hp _ Hx).
  destruct Hp as [i u v|i u v j c d k].
  - now apply (T i u v).
  - inversion Hxn as [|? q ? Hq Hqn]; subst; [exact I|].
    destruct Hq as [<-|[<-|[]]]; [now apply (T i u v)|now apply (T j c d)].
Qed.

(** A compiled graph is the [Concat] of its plan. *)
Lemma silencecutterfade_Ok T sils a g :
  run (silencecutterfade T sils a) = Ok g ->
  g = Concat (fst (plan_closed T sils a)) (snd (plan_closed T sils a) + 1).
Proof.
  unfold run, silencecutterfade, bind. rewrite plan_closed_eq.
  destruct (plan_closed T sils a) as [streams next]. cbn [fst snd].
  destruct (new_Concat streams next) as [[c n]|e] eqn:E; [|discriminate].
  intros [= <-]. now apply new_Concat_Ok in E as (-> & -> & _).
Qed.

End Sharing.

(** C9, as the code has it.  In every compiled graph the one
    [InputStream] ([combined_stream]) is the [src] of every [PtsTrim], and
    its own [src] is the [StartStream]; every other node below the
    [Concat] (each trim and each crossfade) is the predecessor of at most
    one node. *)
Theorem C9_only_the_input_stream_is_shared :
  forall video_duration sils audio_stream_id g,
    run (silencecutterfade video_duration sils audio_stream_id) = Ok g ->
    (forall p1 p2 n,
        reaches g p1 -> reaches g p2 ->
        In n (predecessors p1) -> In n (predecessors p2) ->
        n <> StartStream -> n <> combined_stream audio_stream_id ->
        p1 = p2)
    /\ (forall n,
        reaches g n ->
        match n with
        | PtsTrim src _ _ _ => src = combined_stream audio_stream_id
        | InputStream src _ _ _ =>
            n = combined_stream audio_stream_id /\ src = StartStream
        | _ => True
        end).
Proof.
  intros T sils a g Hg. apply silencecutterfade_Ok in Hg. subst g.
  destruct (plan_closed_ids T sils a) as (Hp & Hs & _).
  rewrite app_nil_r in Hs. apply sorted_lt_NoDup in Hs.
  split.
  - intros p1 p2 n R1 R2 H1 H2 N1 N2.
    destruct (holder_in_plan _ _ _ _ _ Hp R1 H1 N1 N2)
      as [[-> I1]|(I1 & C1 & _ & (i & x & y & En))];
    destruct (holder_in_plan _ _ _ _ _ Hp R2 H2 N1 N2)
      as [[-> I2]|(I2 & C2 & (fo & fi & k & E2) & _)].
    + reflexivity.
    + exfalso.
      assert (Pn : planned (combined_stream a) n).
      { rewrite Forall_forall in Hp. now apply Hp. }
      assert (E : n = p2).
      { apply (flat_map_NoDup_same seg_ids _ n p2 (stream_id n) Hs I1 I2);
          [now apply (planned_own_id (combined_stream a))|exact C2]. }
      subst p2. rewrite E in H2. cbn [predecessors] in H2.
      destruct Pn as [i u v|i u v j c d k'].
      * discriminate E.
      * injection E as <- <- <-.
        destruct H2 as [H2|[H2|[]]]; discriminate H2.
    + exfalso. subst n. cbn [stream_id] in C1.
      assert (E : PtsTrim (combined_stream a) i x y = p1).
      { apply (flat_map_NoDup_same seg_ids _ _ p1 i Hs I2 I1);
          [cbn; auto|exact C1]. }
      subst p1. cbn [predecessors] in H1.
      destruct H1 as [H1|[]]. discriminate H1.
    + apply (flat_map_NoDup_same seg_ids _ p1 p2 (stream_id n) Hs I1 I2 C1 C2).
  - intros n Hn. exact (reaches_plan_shape a _ _ n Hp Hn).
Qed.

Lemma C9_witness :
  exists g,
    run (silencecutterfade 60 [mkSilence 20 24 4] "0") = Ok g
    /\ forall n,
         reaches g n ->
         match n with
         | PtsTrim src _ _ _ => src = combined_stream "0"
         | InputStream src _ _ _ =>
             n = combined_stream "0" /\ src = StartStream
         | _ => True
         end.
Proof.
  eexists. split.
  - vm_compute. reflexivity.
  - refine (proj2 (C9_only_the_input_stream_is_shared
                     60 [mkSilence 20 24 4] "0" _ _)).
    vm_compute. reflexivity.
Defined.

(** C9 as stated fails: in the graph of scenario B the [InputStream],
    which is not the root, is the predecessor of two different trims. *)
Lemma C9_counterexample :
  exists g p1 p2 n,
    run (silencecutterfade 60 [mkSilence 20 24 4] "0") = Ok g
    /\ reaches g p1 /\ reaches g p2
    /\ In n (predecessors p1) /\ In n (predecessors p2)
    /\ n <> StartStream /\ p1 <> p2.
Proof.
  do 4 eexists. split; [vm_compute; reflexivity|].
  split; [eapply reaches_step; [left; reflexivity|apply reaches_self]|].
  split; [eapply reaches_step;
          [right; right; left; reflexivity|apply reaches_self]|].
  split; [left; reflexivity|]. split; [left; reflexivity|].
  split; discriminate.
Qed.

(** The text of a small graph, with every number printed as ["t"]. *)
Example emitted_text :
  generate_filter_complex (fun _ => "t"%string)
    (Concat [PtsTrim (combined_stream "0") 1 0 1] 2)
  = ("[0:v:0]trim=start=t:end=t,setpts=PTS-STARTPTS[v1];[0:a:0]atrim=start=t:end=t,asetpts=PTS-STARTPTS[a1];[v1][a1]concat=n=1:v=1:a=1[v2][a2]",
     "[v2]", "[a2]")%string.
Proof. reflexivity. Qed.

(** A video without silences and without duration has nothing to
    concatenate; a plan that starts with a crossfade cannot be
    concatenated either, [Crossfade] having no [next_id] of its own. *)
Example empty_plan_raises :
  run (silencecutterfade 0 [] "0") = Raise IndexError
  /\ run (new_Concat [Crossfade (PtsTrim (combined_stream "0") 1 0 1)
                                (PtsTrim (combined_stream "0") 2 3 4) 3])
     = Raise NotImplementedError.
Proof. split; reflexivity. Qed.

(** ** More on the extractor *)

Section ExtractorMore.

(** The list built so far is only appended to. *)
Lemma step_acc cur sl line :
  step cur sl line
  = match step cur [] line with
    | Ok (c, l) => Ok (c, sl ++ l)
    | Raise e => Raise e
    end.
Proof.
  unfold step. destruct cur as [s|].
  - destruct (SILENCE_END_RE line) as [[g1 g2]|]; [|now rewrite app_nil_r].
    destruct (float g1); [|reflexivity]. destruct (float g2); [|reflexivity].
    now destruct (update_end _ _ _).
  - destruct (SILENCE_START_RE line); [|now rewrite app_nil_r].
    destruct (float _); [|reflexivity]. now rewrite app_nil_r.
Qed.

Lemma scan_acc lines : forall cur sl,
  scan lines cur sl
  = match scan lines cur [] with
    | Ok l => Ok (sl ++ l)
    | Raise e => Raise e
    end.
Proof.
  induction lines as [|line rest IH]; intros cur sl; cbn [scan].
  - now rewrite app_nil_r.
  - rewrite (step_acc cur sl line).
    destruct (step cur [] line) as [[c l]|]; [|reflexivity].
    rewrite (IH c (sl ++ l)), (IH c l).
    destruct (scan rest c []); [|reflexivity]. now rewrite app_assoc.
Qed.

Lemma scan_state_acc lines : forall cur sl,
  scan_state lines cur sl
  = match scan_state lines cur [] with
    | Ok (c, l) => Ok (c, sl ++ l)
    | Raise e => Raise e
    end.
Proof.
  induction lines as [|line rest IH]; intros cur sl; cbn [scan_state].
  - now rewrite app_nil_r.
  - rewrite (step_acc cur sl line).
    destruct (step cur [] line) as [[c l]|]; [|reflexivity].
    rewrite (IH c (sl ++ l)), (IH c l).
    destruct (scan_state rest c []) as [[c' l']|]; [|reflexivity].
    now rewrite app_assoc.
Qed.

(** [scan] is [scan_state] without the pending start. *)
Lemma scan_of_state lines : forall cur sl,
  scan lines cur sl
  = match scan_state lines cur sl with
    | Ok (_, l) => Ok l
    | Raise e => Raise e
    end.
Proof.
  induction lines as [|line rest IH]; intros cur sl; cbn [scan scan_state].
  - reflexivity.
  - destruct (step cur sl line) as [[c l]|]; [apply IH|reflexivity].
Qed.

Lemma scan_state_app l1 : forall l2 cur sl,
  scan_state (l1 ++ l2) cur sl
  = match scan_state l1 cur sl with
    | Ok (c, l) => scan_state l2 c l
    | Raise e => Raise e
    end.
Proof.
  induction l1 as [|line rest IH]; intros l2 cur sl; cbn [app scan_state].
  - reflexivity.
  - destruct (step cur sl line) as [[c l]|]; [apply IH|reflexivity].
Qed.

(** A line that matches the start pattern does not match the end one. *)
Lemma start_line_is_no_end line :
  SILENCE_START_RE line <> None -> SILENCE_END_RE line = None.
Proof.
  unfold SILENCE_END_RE, SILENCE_START_RE.
  destruct (silencedetect_tag line) as [r|]; [|reflexivity].
  destruct (literal "silence_start: " r) as [r1|] eqn:L; [|congruence].
  intros _. apply literal_Some in L. subst r. reflexivity.
Qed.

Lemma step_noise cur sl line :
  matches_start line = false -> matches_end line = false ->
  step cur sl line = Ok (cur, sl).
Proof.
  unfold matches_start, matches_end, step. intros Hs He.
  destruct cur.
  - destruct (SILENCE_END_RE line) as [[]|]; [discriminate|reflexivity].
  - destruct (SILENCE_START_RE line); [discriminate|reflexivity].
Qed.

Lemma scan_filter_events lines : forall cur sl,
  scan (filter (fun l => matches_start l || matches_end l) lines) cur sl
  = scan lines cur sl.
Proof.
  induction lines as [|line rest IH]; intros cur sl; [reflexivity|].
  cbn [filter].
  destruct (matches_start line || matches_end line) eqn:E.
  - cbn [scan]. destruct (step cur sl line) as [[c l]|]; [apply IH|reflexivity].
  - apply orb_false_iff in E as [Es Ee].
    cbn [scan]. rewrite (step_noise _ _ _ Es Ee). apply IH.
Qed.

Lemma step_length cur sl line cur' sl' :
  step cur sl line = Ok (cur', sl') ->
  (List.length sl' <= List.length sl + (if matches_end line then 1 else 0))%nat
  /\ (List.length sl' + match cur' with Some _ => 1 | None => 0 end
      <= List.length sl + match cur with Some _ => 1 | None => 0 end
         + (if matches_start line then 1 else 0))%nat.
Proof.
  unfold step, matches_end, matches_start. destruct cur as [s|].
  - destruct (SILENCE_END_RE line) as [[g1 g2]|] eqn:E.
    + destruct (float g1); [|discriminate]. destruct (float g2); [|discriminate].
      destruct (update_end _ _ _); [|discriminate].
      intros [= <- <-]. rewrite length_app. cbn [List.length].
      destruct (SILENCE_START_RE line); lia.
    + intros [= <- <-]. destruct (SILENCE_START_RE line); lia.
  - destruct (SILENCE_START_RE line) as [g|].
    + destruct (float g); [|discriminate]. intros [= <- <-].
      destruct (SILENCE_END_RE line); lia.
    + intros [= <- <-]. destruct (SILENCE_END_RE line); lia.
Qed.

Lemma scan_length lines : forall cur sl l,
  scan lines cur sl = Ok l ->
  (List.length l <= List.length sl + List.length (filter matches_end lines))%nat
  /\ (List.length l
      <= List.length sl + match cur with Some _ => 1 | None => 0 end
         + List.length (filter matches_start lines))%nat.
Proof.
  induction lines as [|line rest IH]; intros cur sl l; cbn [scan filter].
  - intros [= <-]. cbn [List.length]. destruct cur; lia.
  - destruct (step cur sl line) as [[c sl']|] eqn:S; [|discriminate].
    intros H. apply IH in H as [H1 H2].
    apply step_length in S as [S1 S2].
    destruct (matches_end line), (matches_start line), c, cur;
      cbn [List.length] in *; lia.
Qed.

(** Digits count for nothing negative. *)
Lemma span_digits s : forall ip tl,
  span is_digit s = (ip, tl) -> all_digits ip = true.
Proof.
  induction s as [|c s IH]; intros ip tl; cbn [span].
  - now intros [= <- _].
  - destruct (is_digit c) eqn:D.
    + destruct (span is_digit s) as [run t]. intros [= <- _].
      cbn [all_digits]. rewrite D. now apply (IH run t).
    + now intros [= <- _].
Qed.

Lemma digits_value_nonneg s : forall acc,
  all_digits s = true -> (0 <= acc)%Z -> (0 <= digits_value s acc)%Z.
Proof.
  induction s as [|c s IH]; intros acc; cbn [all_digits digits_value].
  - auto.
  - intros H Hacc. apply andb_true_iff in H as [D H].
    apply IH; [exact H|].
    unfold is_digit, in_range in D. apply andb_true_iff in D as [D _].
    apply Nat.leb_le in D. lia.
Qed.

Lemma float_nonneg g q : float g = Ok q -> 0 <= q.
Proof.
  unfold float. destruct (span is_digit g) as [ip tl] eqn:S.
  apply span_digits in S. destruct tl as [|c fp].
  - destruct (String.length ip =? 0)%nat; [discriminate|].
    intros [= <-]. unfold Qle. cbn.
    pose proof (digits_value_nonneg ip 0 S). lia.
  - destruct (Ascii.eqb c "." && all_digits fp
              && negb (String.length ip + String.length fp =? 0)%nat) eqn:E;
      [|discriminate].
    apply andb_true_iff in E as [E _]. apply andb_true_iff in E as [_ F].
    intros [= <-]. unfold Qle. cbn.
    pose proof (digits_value_nonneg ip 0 S).
    pose proof (digits_value_nonneg fp (digits_value ip 0) F). lia.
Qed.

Lemma step_nonneg cur sl line cur' sl' :
  step cur sl line = Ok (cur', sl') ->
  match cur with Some s => 0 <= s | None => True end ->
  Forall (fun x => 0 <= start x /\ 0 <= end_ x
                   /\ 0 <= silencedetector.duration x) sl ->
  match cur' with Some s => 0 <= s | None => True end
  /\ Forall (fun x => 0 <= start x /\ 0 <= end_ x
                      /\ 0 <= silencedetector.duration x) sl'.
Proof.
  unfold step. destruct cur as [s|].
  - destruct (SILENCE_END_RE line) as [[g1 g2]|].
    + destruct (float g1) as [e|] eqn:F1; [|discriminate].
      destruct (float g2) as [d|] eqn:F2; [|discriminate].
      destruct (update_end s e d) as [x|] eqn:U; [|discriminate].
      intros [= <- <-] Hs Hsl. split; [exact I|].
      apply update_end_inv in U as [-> _].
      apply Forall_app. split; [exact Hsl|]. constructor; [|constructor].
      cbn. repeat split;
        [exact Hs|exact (float_nonneg _ _ F1)|exact (float_nonneg _ _ F2)].
    + intros [= <- <-]. auto.
  - destruct (SILENCE_START_RE line) as [g|].
    + destruct (float g) as [s|] eqn:F; [|discriminate].
      intros [= <- <-] _ Hsl. split; [exact (float_nonneg _ _ F)|exact Hsl].
    + intros [= <- <-]. auto.
Qed.

Lemma scan_nonneg lines : forall cur sl l,
  scan lines cur sl = Ok l ->
  match cur with Some s => 0 <= s | None => True end ->
  Forall (fun x => 0 <= start x /\ 0 <= end_ x
                   /\ 0 <= silencedetector.duration x) sl ->
  Forall (fun x => 0 <= start x /\ 0 <= end_ x
                   /\ 0 <= silencedetector.duration x) l.
Proof.
  induction lines as [|line rest IH]; intros cur sl l; cbn [scan].
  - now intros [= <-].
  - destruct (step cur sl line) as [[c sl']|] eqn:S; [|discriminate].
    intros H Hc Hsl. destruct (step_nonneg _ _ _ _ _ S Hc Hsl) as [Hc' Hsl'].
    exact (IH _ _ _ H Hc' Hsl').
Qed.

End ExtractorMore.

(** X1.  Lines that match neither pattern have no effect: dropping them
    from the log leaves the result of [silences] unchanged, be it a list
    or an exception. *)
Theorem X1_noise_lines_do_not_matter :
  forall lines,
    silences (filter (fun l => matches_start l || matches_end l) lines)
    = silences lines.
Proof. intros lines. apply scan_filter_events. Qed.

(** X2.  A start line met while a silence is open is skipped: the open
    silence keeps its first start. *)
Theorem X2_start_while_open_is_skipped :
  forall line rest s sl,
    SILENCE_START_RE line <> None ->
    step (Some s) sl line = Ok (Some s, sl)
    /\ scan (line :: rest) (Some s) sl = scan rest (Some s) sl.
Proof.
  intros line rest s sl H.
  assert (S : step (Some s) sl line = Ok (Some s, sl)).
  { unfold step. now rewrite (start_line_is_no_end _ H). }
  split; [exact S|]. cbn [scan]. now rewrite S.
Qed.

Lemma X2_witness :
  step (Some 10) [] "[silencedetect @ 0a1f] silence_start: 11"
  = Ok (Some 10, [])
  /\ scan ["[silencedetect @ 0a1f] silence_start: 11";
           "[silencedetect @ 0a1f] silence_end: 14 | silence_duration: 4"]%string
        (Some 10) []
     = scan ["[silencedetect @ 0a1f] silence_end: 14 | silence_duration: 4"%string]
         (Some 10) [].
Proof.
  apply (X2_start_while_open_is_skipped
           "[silencedetect @ 0a1f] silence_start: 11").
  discriminate.
Defined.

(** X3.  [silences] never returns more silences than the log has end
    lines, nor more than it has start lines. *)
Theorem X3_no_more_silences_than_events :
  forall lines l,
    silences lines = Ok l ->
    (List.length l <= List.length (filter matches_end lines))%nat
    /\ (List.length l <= List.length (filter matches_start lines))%nat.
Proof.
  intros lines l H. apply scan_length in H as [H1 H2].
  cbn [List.length] in *. lia.
Qed.

Lemma X3_witness :
  (List.length [mkSilence (100 # 10) (132 # 10) (32 # 10)] <= 1)%nat.
Proof.
  apply (proj1 (X3_no_more_silences_than_events
    ["[silencedetect @ 0a1f] silence_start: 10.0";
     "[silencedetect @ 0a1f] silence_end: 13.2 | silence_duration: 3.2";
     "[silencedetect @ 0a1f] silence_start: 20.0"]%string _ eq_refl)).
Defined.

(** X4.  The patterns admit no sign, so every silence that [silences]
    returns has a non-negative start, end and duration. *)
Theorem X4_parsed_silences_nonnegative :
  forall lines l,
    silences lines = Ok l ->
    Forall (fun x => 0 <= start x /\ 0 <= end_ x
                     /\ 0 <= silencedetector.duration x) l.
Proof.
  intros lines l H. eapply scan_nonneg; [exact H|exact I|constructor].
Qed.

Lemma X4_witness :
  Forall (fun x => 0 <= start x /\ 0 <= end_ x
                   /\ 0 <= silencedetector.duration x)
    [mkSilence (100 # 10) (132 # 10) (32 # 10)].
Proof.
  apply (X4_parsed_silences_nonnegative
    ["[silencedetect @ 0a1f] silence_start: 10.0";
     "[silencedetect @ 0a1f] silence_end: 13.2 | silence_duration: 3.2"]%string).
  reflexivity.
Defined.



(** X6.  The patterns admit numbers that [float] rejects (two dots, or a
    lone dot); the first start line with such a number makes [silences]
    raise [ValueError], whatever follows it. *)
Theorem X6_malformed_number_raises :
  forall noise line rest g,
    Forall (fun l => matches_start l = false) noise ->
    SILENCE_START_RE line = Some g ->
    float g = Raise ValueError ->
    silences (noise ++ line :: rest) = Raise ValueError.
Proof.
  intros noise line rest g Hn Hs Hf. unfold silences.
  induction Hn as [|l noise Hl _ IH]; cbn [app scan].
  - unfold step. now rewrite Hs, Hf.
  - unfold step at 1. unfold matches_start in Hl.
    destruct (SILENCE_START_RE l); [discriminate|]. exact IH.
Qed.

Lemma X6_witness :
  silences ["frame=  100 fps= 25";
            "[silencedetect @ 0a1f] silence_start: 1.2.3";
            "[silencedetect @ 0a1f] silence_end: 5 | silence_duration: 4"]%string
  = Raise ValueError.
Proof.
  apply (X6_malformed_number_raises ["frame=  100 fps= 25"%string]
           "[silencedetect @ 0a1f] silence_start: 1.2.3" _ "1.2.3").
  - repeat constructor.
  - reflexivity.
  - reflexivity.
Defined.

(** X7.  A log that ends with no silence open can be read in two parts:
    the silences of the whole log are those of the first part followed
    by those of the second. *)
Theorem X7_silences_of_two_parts :
  forall l1 l2 sl1,
    scan_state l1 None [] = Ok (None, sl1) ->
    silences l1 = Ok sl1
    /\ silences (l1 ++ l2)
       = match silences l2 with
         | Ok sl2 => Ok (sl1 ++ sl2)
         | Raise e => Raise e
         end.
Proof.
  intros l1 l2 sl1 H. unfold silences. split.
  - now rewrite scan_of_state, H.
  - rewrite scan_of_state, scan_state_app, H, <- scan_of_state.
    apply scan_acc.
Qed.

Lemma X7_witness :
  silences (["[silencedetect @ 0a1f] silence_start: 10";
             "[silencedetect @ 0a1f] silence_end: 14 | silence_duration: 4"]%string
            ++ ["[silencedetect @ 0a1f] silence_start: 20";
                "[silencedetect @ 0a1f] silence_end: 24 | silence_duration: 4"]%string)%list
  = Ok ([mkSilence 10 14 4] ++ [mkSilence 20 24 4]).
Proof.
  apply (proj2 (X7_silences_of_two_parts
    ["[silencedetect @ 0a1f] silence_start: 10";
     "[silencedetect @ 0a1f] silence_end: 14 | silence_duration: 4"]%string
    ["[silencedetect @ 0a1f] silence_start: 20";
     "[silencedetect @ 0a1f] silence_end: 24 | silence_duration: 4"]%string
    [mkSilence 10 14 4] eq_refl)).
Defined.

(** X8.  A start line at the very end of the log never changes the
    result: the silence it opens is dropped without an error, and if a
    silence was open already the line is skipped. *)
Theorem X8_trailing_start_is_dropped :
  forall lines line g s,
    SILENCE_START_RE line = Some g ->
    float g = Ok s ->
    silences (lines ++ [line]) = silences lines.
Proof.
  intros lines line g s Hs Hf. unfold silences.
  rewrite !scan_of_state, scan_state_app.
  destruct (scan_state lines None []) as [[c l]|]; [|reflexivity].
  cbn [scan_state]. destruct c as [s0|].
  - unfold step. rewrite (start_line_is_no_end line); [reflexivity|congruence].
  - unfold step. now rewrite Hs, Hf.
Qed.

Lemma X8_witness :
  silences (["[silencedetect @ 0a1f] silence_start: 10";
             "[silencedetect @ 0a1f] silence_end: 14 | silence_duration: 4"]%string
            ++ ["[silencedetect @ 0a1f] silence_start: 20"%string])%list
  = silences ["[silencedetect @ 0a1f] silence_start: 10";
              "[silencedetect @ 0a1f] silence_end: 14 | silence_duration: 4"]%string.
Proof.
  apply (X8_trailing_start_is_dropped _ _ "20"%string 20); reflexivity.
Defined.

(** ** The histogram of [silencedetector] *)

Section Histogram.

Lemma increment_length c : forall i, List.length (increment c i) = List.length c.
Proof.
  induction c as [|x c IH]; intros [|i]; cbn [increment List.length]; auto.
Qed.

Lemma nth_increment c : forall i j,
  nth j (increment c i) O
  = (nth j c O + if (i =? j)%nat && (i <? List.length c)%nat then 1 else 0)%nat.
Proof.
  induction c as [|x c IH]; intros i j.
  - destruct i, j; cbn [increment nth List.length];
      rewrite andb_false_r; reflexivity.
  - destruct i as [|i], j as [|j]; cbn [increment nth].
    + cbn. lia.
    + cbn. lia.
    + cbn. lia.
    + rewrite IH. reflexivity.
Qed.

Lemma list_sum_increment c : forall i,
  (i < List.length c)%nat -> list_sum (increment c i) = S (list_sum c).
Proof.
  induction c as [|x c IH]; intros [|i] H; simpl in *; try lia.
  rewrite IH; lia.
Qed.

Lemma in_bucket_iff i d :
  in_bucket i d = true
  <-> inject_Z (Z.of_nat i) <= d /\ d < inject_Z (Z.of_nat i) + 1.
Proof.
  unfold in_bucket. rewrite andb_true_iff, negb_true_iff, Qle_bool_iff.
  split; intros [H1 H2]; (split; [exact H1|]).
  - apply Qnot_le_lt. intros L. apply Qle_bool_iff in L. congruence.
  - destruct (Qle_bool (inject_Z (Z.of_nat i) + 1) d) eqn:E; [|reflexivity].
    apply Qle_bool_iff in E. exfalso. eapply Qlt_not_le; eassumption.
Qed.

(** The buckets are disjoint. *)
Lemma in_bucket_unique i j d :
  in_bucket i d = true -> in_bucket j d = true -> i = j.
Proof.
  rewrite !in_bucket_iff. intros [A1 A2] [B1 B2].
  assert (H1 : inject_Z (Z.of_nat i) < inject_Z (Z.of_nat j + 1)).
  { rewrite inject_Z_plus. eapply Qle_lt_trans; eassumption. }
  assert (H2 : inject_Z (Z.of_nat j) < inject_Z (Z.of_nat i + 1)).
  { rewrite inject_Z_plus. eapply Qle_lt_trans; eassumption. }
  rewrite <- Zlt_Qlt in H1, H2. lia.
Qed.

Lemma count_silence_length d range : forall c,
  List.length (count_silence d range c) = List.length c.
Proof.
  induction range as [|i range IH]; intros c; cbn [count_silence]; auto.
  destruct (in_bucket i d); [apply increment_length|apply IH].
Qed.

(** One silence adds one to its bucket, when the loop reaches it. *)
Lemma nth_count_silence d range : forall c j,
  Forall (fun i => (i < List.length c)%nat) range ->
  nth j (count_silence d range c) O
  = (nth j c O
     + if in_bucket j d && existsb (Nat.eqb j) range then 1 else 0)%nat.
Proof.
  induction range as [|i range IH]; intros c j Hr; cbn [count_silence existsb].
  - rewrite andb_false_r. lia.
  - inversion Hr as [|? ? Hi Hr']; subst.
    destruct (in_bucket i d) eqn:Bi.
    + rewrite nth_increment. apply Nat.ltb_lt in Hi. rewrite Hi, andb_true_r.
      destruct (Nat.eqb_spec i j) as [->|N].
      * rewrite Bi, Nat.eqb_refl. reflexivity.
      * destruct (in_bucket j d) eqn:Bj.
        -- exfalso. apply N. eapply in_bucket_unique; eassumption.
        -- reflexivity.
    + rewrite (IH c j Hr').
      destruct (Nat.eqb_spec j i) as [->|N]; [now rewrite Bi|reflexivity].
Qed.

Lemma list_sum_count_silence d range : forall c,
  Forall (fun i => (i < List.length c)%nat) range ->
  list_sum (count_silence d range c)
  = (list_sum c + if existsb (fun i => in_bucket i d) range then 1 else 0)%nat.
Proof.
  induction range as [|i range IH]; intros c Hr; cbn [count_silence existsb].
  - lia.
  - inversion Hr as [|? ? Hi Hr']; subst.
    destruct (in_bucket i d); cbn [orb].
    + rewrite (list_sum_increment _ _ Hi). lia.
    + apply (IH c Hr').
Qed.

Lemma existsb_seq_eqb j n :
  (j < n)%nat -> existsb (Nat.eqb j) (seq 0 n) = true.
Proof.
  intros H. apply existsb_exists. exists j. split.
  - apply in_seq. lia.
  - apply Nat.eqb_refl.
Qed.

(** Some bucket below [n] holds [d] exactly when [0 <= d < n]. *)
Lemma some_bucket d n :
  existsb (fun i => in_bucket i d) (seq 0 n)
  = Qle_bool 0 d && negb (Qle_bool (inject_Z (Z.of_nat n)) d).
Proof.
  apply eq_true_iff_eq.
  rewrite existsb_exists, andb_true_iff, negb_true_iff, Qle_bool_iff.
  split.
  - intros (i & Hi & B). apply in_seq in Hi. apply in_bucket_iff in B as [B1 B2].
    split.
    + eapply Qle_trans; [|exact B1].
      change 0 with (inject_Z 0). rewrite <- Zle_Qle. lia.
    + destruct (Qle_bool (inject_Z (Z.of_nat n)) d) eqn:E; [|reflexivity].
      apply Qle_bool_iff in E. exfalso.
      assert (L : inject_Z (Z.of_nat i) + 1 <= inject_Z (Z.of_nat n)).
      { change (inject_Z (Z.of_nat i) + 1)
          with (inject_Z (Z.of_nat i) + inject_Z 1).
        rewrite <- inject_Z_plus, <- Zle_Qle. lia. }
      apply (Qlt_not_le _ _ B2). eapply Qle_trans; eassumption.
  - intros [H0 Hn].
    assert (Hlt : d < inject_Z (Z.of_nat n)).
    { apply Qnot_le_lt. intros L. apply Qle_bool_iff in L. congruence. }
    assert (F0 : (0 <= Qfloor d)%Z).
    { change 0%Z with (Qfloor 0). now apply Qfloor_resp_le. }
    assert (Fn : (Qfloor d < Z.of_nat n)%Z).
    { rewrite Zlt_Qlt. eapply Qle_lt_trans; [apply Qfloor_le|exact Hlt]. }
    exists (Z.to_nat (Qfloor d)). split.
    + apply in_seq. lia.
    + apply in_bucket_iff. rewrite Z2Nat.id by exact F0. split.
      * apply Qfloor_le.
      * change (inject_Z (Qfloor d) + 1) with (inject_Z (Qfloor d) + inject_Z 1).
        rewrite <- inject_Z_plus. apply Qlt_floor.
Qed.

Lemma fold_count_length sils : forall c,
  List.length
    (fold_left (fun counters silence =>
                  count_silence (silencedetector.duration silence) (seq 0 30)
                    counters) sils c)
  = List.length c.
Proof.
  induction sils as [|x sils IH]; intros c; cbn [fold_left]; [reflexivity|].
  rewrite IH. apply count_silence_length.
Qed.

Lemma range_in_counters (c : list nat) :
  List.length c = 30%nat ->
  Forall (fun i => (i < List.length c)%nat) (seq 0 30).
Proof.
  intros ->. apply Forall_forall. intros i Hi. apply in_seq in Hi. lia.
Qed.

End Histogram.

(** X9.  [silencedetector] keeps the 30 counters, and counter [i] ends as
    the number of silences whose duration lies in [[i, i+1)]. *)
Theorem X9_histogram_buckets :
  forall sils,
    List.length (silencedetector.silencedetector sils) = 30%nat
    /\ forall i,
         (i < 30)%nat ->
         nth i (silencedetector.silencedetector sils) O
         = List.length
             (filter (fun x => in_bucket i (silencedetector.duration x)) sils).
Proof.
  intros sils. unfold silencedetector.silencedetector. split.
  - rewrite fold_count_length. apply repeat_length.
  - intros i Hi.
    assert (G : forall c, List.length c = 30%nat ->
      nth i (fold_left (fun counters silence =>
                          count_silence (silencedetector.duration silence)
                            (seq 0 30) counters) sils c) O
      = (nth i c O
         + List.length
             (filter (fun x => in_bucket i (silencedetector.duration x)) sils))%nat).
    { induction sils as [|x sils IH]; intros c Hc; cbn [fold_left filter].
      - cbn [List.length]. lia.
      - rewrite IH by (now rewrite count_silence_length).
        rewrite nth_count_silence by (now apply range_in_counters).
        rewrite (existsb_seq_eqb i 30 Hi), andb_true_r.
        destruct (in_bucket i (silencedetector.duration x));
          cbn [List.length]; lia. }
    rewrite G by apply repeat_length.
    rewrite nth_repeat. reflexivity.
Qed.

Lemma X9_witness :
  nth 4 (silencedetector.silencedetector
           [mkSilence 20 24 4; mkSilence 30 (343 # 10) (43 # 10);
            mkSilence 40 43 3]) O
  = List.length
      (filter (fun x => in_bucket 4 (silencedetector.duration x))
         [mkSilence 20 24 4; mkSilence 30 (343 # 10) (43 # 10);
          mkSilence 40 43 3]).
Proof.
  apply (proj2 (X9_histogram_buckets _)). repeat constructor.
Defined.

(** X10.  The counters add up to the number of silences whose duration
    lies in [[0, 30)]; a silence of 30 seconds or more is counted
    nowhere. *)
Theorem X10_histogram_total :
  forall sils,
    list_sum (silencedetector.silencedetector sils)
    = List.length
        (filter (fun x => Qle_bool 0 (silencedetector.duration x)
                          && negb (Qle_bool 30 (silencedetector.duration x)))
           sils).
Proof.
  intros sils. unfold silencedetector.silencedetector.
  assert (G : forall c, List.length c = 30%nat ->
    list_sum (fold_left (fun counters silence =>
                           count_silence (silencedetector.duration silence)
                             (seq 0 30) counters) sils c)
    = (list_sum c
       + List.length
           (filter (fun x => Qle_bool 0 (silencedetector.duration x)
                             && negb (Qle_bool 30 (silencedetector.duration x)))
              sils))%nat).
  { induction sils as [|x sils IH]; intros c Hc; cbn [fold_left filter].
    - cbn [List.length]. lia.
    - rewrite IH by (now rewrite count_silence_length).
      rewrite list_sum_count_silence by (now apply range_in_counters).
      rewrite (some_bucket (silencedetector.duration x) 30).
      change (inject_Z (Z.of_nat 30)) with 30.
      destruct (Qle_bool 0 (silencedetector.duration x)
                && negb (Qle_bool 30 (silencedetector.duration x)));
        cbn [List.length]; lia. }
  rewrite G by apply repeat_length. reflexivity.
Qed.

(** ** Labels *)

Section Labels.

Lemma string_length_append (s t : string) :
  String.length (s ++ t) = (String.length s + String.length t)%nat.
Proof. induction s as [|c s IH]; simpl; [reflexivity|now rewrite IH]. Qed.

Lemma append_inj_r (t : string) : forall s1 s2 : string,
  (s1 ++ t)%string = (s2 ++ t)%string -> s1 = s2.
Proof.
  induction s1 as [|c s1 IH]; intros [|c2 s2] H; simpl in H.
  - reflexivity.
  - exfalso. apply (f_equal String.length) in H. simpl in H.
    rewrite string_length_append in H. lia.
  - exfalso. apply (f_equal String.length) in H. simpl in H.
    rewrite string_length_append in H. lia.
  - injection H as -> H. now rewrite (IH _ H).
Qed.

Lemma to_int_proper z : Z.to_int z <> Decimal.Pos Decimal.Nil
                        /\ Z.to_int z <> Decimal.Neg Decimal.Nil.
Proof.
  destruct z as [|p|p]; cbn [Z.to_int]; split; try discriminate;
    intros [= H]; exact (DecimalPos.Unsigned.to_uint_nonnil p H).
Qed.

(** [str] is injective. *)
Lemma str_inj a b : str a = str b -> a = b.
Proof.
  unfold str. intros H.
  destruct (to_int_proper a) as [A1 A2], (to_int_proper b) as [B1 B2].
  apply DecimalZ.to_int_inj.
  pose proof (NilZero.isi _ A1 A2) as Ia. pose proof (NilZero.isi _ B1 B2) as Ib.
  rewrite H in Ia. rewrite Ia in Ib. now injection Ib.
Qed.

(** [str] starts with a digit or a minus sign. *)
Lemma str_head z :
  exists c r, str z = String c r /\ c <> "v"%char /\ c <> "a"%char.
Proof.
  unfold str. destruct (Z.to_int z) as [d|d].
  - destruct d; cbn; do 2 eexists;
      (split; [reflexivity|split; discriminate]).
  - cbn. do 2 eexists. split; [reflexivity|split; discriminate].
Qed.

Lemma plain_video s : plain_label s ->
  video_id s = ("[v" ++ str (stream_id s) ++ "]")%string.
Proof. destruct s; cbn; tauto. Qed.

Lemma plain_audio s : plain_label s ->
  audio_id s = ("[a" ++ str (stream_id s) ++ "]")%string.
Proof. destruct s; cbn; tauto. Qed.

Lemma plain_video_inj i j :
  ("[v" ++ str i ++ "]")%string = ("[v" ++ str j ++ "]")%string -> i = j.
Proof.
  cbn. intros [= H]. apply str_inj. exact (append_inj_r _ _ _ H).
Qed.

Lemma input_is_not_plain_video i j :
  ("[" ++ str i ++ ":v:0]")%string <> ("[v" ++ str j ++ "]")%string.
Proof.
  cbn. intros [= H]. destruct (str_head i) as (c & r & E & Hv & _).
  rewrite E in H. cbn in H. injection H as H _. contradiction.
Qed.

End Labels.

(** X11.  Labels do not collide: streams with the same video label have
    the same identifier; so do streams other than [InputStream] with the
    same audio label; and the video label of a stream never is the audio
    label of another when one of the two is not an [InputStream]. *)
Theorem X11_labels_do_not_collide :
  (forall s1 s2, video_id s1 = video_id s2 -> stream_id s1 = stream_id s2)
  /\ (forall s1 s2,
      plain_label s1 -> plain_label s2 ->
      audio_id s1 = audio_id s2 -> stream_id s1 = stream_id s2)
  /\ (forall s1 s2,
      plain_label s1 \/ plain_label s2 -> video_id s1 <> audio_id s2).
Proof.
  repeat split.
  - intros s1 s2 H.
    assert (D : forall s, plain_label s \/ exists src i d a, s = InputStream src i d a).
    { intros [|src i d a| | |]; cbn; eauto 6. }
    destruct (D s1) as [P1|(src1 & i1 & d1 & a1 & ->)],
             (D s2) as [P2|(src2 & i2 & d2 & a2 & ->)].
    + rewrite (plain_video _ P1), (plain_video _ P2) in H.
      now apply plain_video_inj.
    + rewrite (plain_video _ P1) in H. cbn [video_id] in H.
      symmetry in H. now apply input_is_not_plain_video in H.
    + rewrite (plain_video _ P2) in H. cbn [video_id] in H.
      now apply input_is_not_plain_video in H.
    + cbn in H. injection H as H. cbn [stream_id]. apply str_inj.
      exact (append_inj_r _ _ _ H).
  - intros s1 s2 P1 P2 H.
    rewrite (plain_audio _ P1), (plain_audio _ P2) in H.
    cbn in H. injection H as H. apply str_inj. exact (append_inj_r _ _ _ H).
  - intros s1 s2 [P|P] H.
    + rewrite (plain_video _ P) in H. destruct s2; cbn in H; try discriminate.
      injection H as H. destruct (str_head stream_id0) as (c & r & E & Hv & _).
      rewrite E in H. cbn in H. injection H as H _. congruence.
    + rewrite (plain_audio _ P) in H. destruct s1; cbn in H; try discriminate.
      injection H as H. destruct (str_head stream_id0) as (c & r & E & _ & Ha).
      rewrite E in H. cbn in H. injection H as H _. congruence.
Qed.

Lemma X11_witness :
  stream_id (PtsTrim StartStream 3 0 1)
  = stream_id (Crossfade StartStream StartStream 3).
Proof.
  apply (proj1 X11_labels_do_not_collide). reflexivity.
Defined.

(** X12.  A node takes its identifier through its first stream only, and
    [Crossfade] and [Concat] inherit the [next_id] that raises: a trim of
    a crossfade or of a concatenation, and a concatenation whose first
    stream is one, raise [NotImplementedError]; a concatenation whose
    first stream is a trim succeeds whatever the other streams are; and
    the concatenation of nothing raises [IndexError]. *)
Theorem X12_identifier_comes_from_the_first_stream :
  (forall s next,
      (rooted s = true
       -> next_id s next = Ok ((next + 1)%Z, (next + 1)%Z))
      /\ (rooted s = false -> next_id s next = Raise NotImplementedError))
  /\ (forall src a b next,
      rooted src = false ->
      new_PtsTrim src a b next = Raise NotImplementedError)
  /\ (forall s0 l next,
      rooted s0 = false ->
      new_Concat (s0 :: l) next = Raise NotImplementedError)
  /\ (forall s0 l next,
      rooted s0 = true ->
      new_Concat (s0 :: l) next = Ok (Concat (s0 :: l) (next + 1), (next + 1)%Z))
  /\ (forall next, new_Concat [] next = Raise IndexError).
Proof.
  assert (N : forall s next,
             rooted s = false -> next_id s next = Raise NotImplementedError).
  { induction s using BaseStream_ind; cbn; intros next R;
      try discriminate; auto. }
  repeat split.
  - intros R. now apply next_id_rooted.
  - apply N.
  - intros src a b next R. unfold new_PtsTrim, bind. now rewrite (N _ _ R).
  - intros s0 l next R. cbn. unfold bind. now rewrite (N _ _ R).
  - intros s0 l next R. cbn. unfold bind. now rewrite (next_id_rooted _ R).
Qed.

Lemma X12_witness :
  new_Concat [Crossfade (PtsTrim (combined_stream "0") 1 0 1)
                        (PtsTrim (combined_stream "0") 2 3 4) 3;
              PtsTrim (combined_stream "0") 4 4 9] 4%Z
  = Raise NotImplementedError
  /\ new_Concat [PtsTrim (combined_stream "0") 4 4 9;
                 Crossfade (PtsTrim (combined_stream "0") 1 0 1)
                           (PtsTrim (combined_stream "0") 2 3 4) 3] 4%Z
     = Ok (Concat [PtsTrim (combined_stream "0") 4 4 9;
                   Crossfade (PtsTrim (combined_stream "0") 1 0 1)
                             (PtsTrim (combined_stream "0") 2 3 4) 3] (4 + 1),
           (4 + 1)%Z).
Proof.
  split.
  - apply (proj1 (proj2 (proj2 X12_identifier_comes_from_the_first_stream))).
    reflexivity.
  - apply (proj1 (proj2 (proj2 (proj2 X12_identifier_comes_from_the_first_stream)))).
    reflexivity.
Defined.

(** ** More on the planner *)

Section PlannerMore.

(** An invariant of the loop holds when the last step starts. *)
Lemma plan_closed_inv a
    (I : list Silence -> Q -> option BaseStream -> list BaseStream -> Z -> Prop)
    T sils :
  (forall sil rest s fo streams next,
      pending (combined_stream a) fo ->
      I (sil :: rest) s fo streams next ->
      I rest (end_ sil - END_SILENCE_LENGTH)
        (step_fade_out (combined_stream a) s (start sil + START_SILENCE_LENGTH)
           fo true next)
        (step_streams (combined_stream a) s (start sil + START_SILENCE_LENGTH)
           fo streams true next)
        (step_next fo true next)) ->
  I sils 0 None [] 0%Z ->
  exists s fo streams next,
    pending (combined_stream a) fo
    /\ I [] s fo streams next
    /\ plan_closed T sils a
       = (step_streams (combined_stream a) s T fo streams false next,
          step_next fo false next).
Proof.
  intros Hstep H0. unfold plan_closed.
  destruct (boundaries_closed_inv (combined_stream a) I Hstep sils 0 None []
              0%Z Logic.I H0) as (s & fo & streams & next & E & P & H).
  exists s, fo, streams, next. rewrite E. auto.
Qed.


Lemma planned_count cs streams :
  Forall (planned cs) streams ->
  List.length streams
  = (List.length (main_clip_durations streams)
     + List.length (fade_out_durations streams))%nat.
Proof.
  induction 1 as [|x streams Hx _ IH]; [reflexivity|].
  change (x :: streams) with ([x] ++ streams).
  rewrite main_clip_durations_app, fade_out_durations_app, !length_app, IH.
  destruct Hx; cbn; lia.
Qed.

Lemma step_kept_count cs s e fo dfo next :
  (List.length (main_clip_durations (step_kept cs s e fo dfo next)) <= 1)%nat.
Proof. unfold step_kept. destruct (Qpos_bool _); cbn; lia. Qed.

Lemma step_streams_fade_count cs s e fo streams dfo next :
  pending cs fo ->
  List.length (fade_out_durations (step_streams cs s e fo streams dfo next))
  = (List.length (fade_out_durations streams)
     + match fo with Some _ => 1 | None => 0 end)%nat.
Proof.
  intros P. unfold step_streams.
  rewrite !fade_out_durations_app, step_kept_no_fade, app_nil_r, length_app.
  rewrite (step_cross_fade_out _ _ _ _ P). now destruct fo.
Qed.

Lemma step_streams_main_count cs s e fo streams dfo next :
  (List.length (main_clip_durations (step_streams cs s e fo streams dfo next))
   <= List.length (main_clip_durations streams) + 1)%nat.
Proof.
  unfold step_streams.
  rewrite !main_clip_durations_app, step_cross_no_main, !length_app.
  pose proof (step_kept_count cs s e fo dfo next). cbn [List.length]. lia.
Qed.

(** Counting the crossfades, the main clips and the identifiers. *)
Lemma plan_closed_counts T sils a :
  List.length (fade_out_durations (fst (plan_closed T sils a)))
  = List.length sils
  /\ (List.length (main_clip_durations (fst (plan_closed T sils a)))
      <= List.length sils + 1)%nat
  /\ snd (plan_closed T sils a) = (4 * Z.of_nat (List.length sils) + 1)%Z.
Proof.
  destruct (plan_closed_inv a
    (fun rest _ fo streams next =>
       (List.length (fade_out_durations streams)
        + match fo with Some _ => 1 | None => 0 end
        + List.length rest = List.length sils)%nat
       /\ (List.length (main_clip_durations streams) + List.length rest
           <= List.length sils)%nat
       /\ (next + 4 * Z.of_nat (List.length rest)
           + match fo with Some _ => 2 | None => 0 end
           = 4 * Z.of_nat (List.length sils))%Z) T sils)
    as (s & fo & streams & next & P & (H1 & H2 & H3) & ->).
  - intros sil rest s fo streams next P (H1 & H2 & H3).
    rewrite (step_streams_fade_count _ _ _ _ _ _ _ P).
    pose proof (step_streams_main_count (combined_stream a) s
                  (start sil + START_SILENCE_LENGTH) fo streams true next).
    unfold step_fade_out, step_next, step_used.
    cbn [List.length] in *. repeat split; destruct fo; lia.
  - cbn [List.length fade_out_durations main_clip_durations flat_map].
    repeat split; lia.
  - cbn [fst snd List.length] in *.
    rewrite (step_streams_fade_count _ _ _ _ _ _ _ P).
    pose proof (step_streams_main_count (combined_stream a) s T fo streams
                  false next).
    unfold step_next, step_used. repeat split; destruct fo; lia.
Qed.

(** Once a trim heads the list handed to [Concat], it stays there. *)
Lemma plan_closed_head T sils a :
  match sils with
  | [] => 0 < T
  | sil :: _ => 0 <= start sil
  end ->
  exists i x y tl,
    fst (plan_closed T sils a) = PtsTrim (combined_stream a) i x y :: tl.
Proof.
  intros H0.
  destruct (plan_closed_inv a
    (fun rest s fo streams _ =>
       (fo = None /\ streams = [] /\ s = 0 /\ rest = sils)
       \/ exists i x y tl, streams = PtsTrim (combined_stream a) i x y :: tl)
    T sils)
    as (s & fo & streams & next & P & H & ->).
  - intros sil rest s fo streams next P
      [(-> & -> & -> & E)|(i & x & y & tl & ->)]; right.
    + rewrite <- E in H0.
      unfold step_streams, step_cross, step_kept, step_main.
      cbn [fade_duration app].
      rewrite new_fade_out_default
        by (rewrite START_SILENCE_LENGTH_value, FADE_LENGTH_value; lra).
      assert (K : Qpos_bool (start sil + START_SILENCE_LENGTH - FADE_LENGTH
                             - (0 + 0)) = true).
      { apply Qpos_bool_true.
        rewrite START_SILENCE_LENGTH_value, FADE_LENGTH_value. lra. }
      rewrite K. eauto.
    + unfold step_streams. cbn [app]. eauto.
  - left. auto.
  - cbn [fst]. destruct H as [(-> & -> & -> & E)|(i & x & y & tl & ->)].
    + rewrite <- E in H0.
      unfold step_streams, step_cross, step_kept, step_main.
      cbn [fade_duration app new_fade_out negb].
      assert (K : Qpos_bool (T - 0 - (0 + 0)) = true).
      { apply Qpos_bool_true. lra. }
      unfold new_fade_out. cbn [negb]. rewrite K. eauto.
    + unfold step_streams. cbn [app]. eauto.
Qed.

(** What a planned stream emits. *)
Lemma planned_emits f a x :
  planned (combined_stream a) x ->
  List.length (filters f x [])
  = (2 * List.length (main_clip_durations [x])
     + 10 * List.length (fade_out_durations [x]))%nat.
Proof.
  intros [i u v|i u v j c d k]; reflexivity.
Qed.

Lemma planned_list_emits f a streams :
  Forall (planned (combined_stream a)) streams ->
  List.length (flat_map (fun x => filters f x []) streams)
  = (2 * List.length (main_clip_durations streams)
     + 10 * List.length (fade_out_durations streams))%nat.
Proof.
  induction 1 as [|x streams Hx _ IH]; [reflexivity|].
  cbn [flat_map]. rewrite length_app, IH, (planned_emits f a x Hx).
  change (x :: streams) with ([x] ++ streams).
  rewrite main_clip_durations_app, fade_out_durations_app, !length_app. lia.
Qed.

End PlannerMore.




(** X15.  The identifier of the compiled root depends on the number of
    silences only: with n silences it is 4n + 2, so the labels to map as
    outputs are [v] and [a] followed by that number. *)
Theorem X15_root_identifier :
  forall video_duration sils audio_stream_id g,
    run (silencecutterfade video_duration sils audio_stream_id) = Ok g ->
    stream_id g = (4 * Z.of_nat (List.length sils) + 2)%Z
    /\ forall f,
         snd (fst (generate_filter_complex f g))
         = ("[v" ++ str (4 * Z.of_nat (List.length sils) + 2) ++ "]")%string
         /\ snd (generate_filter_complex f g)
            = ("[a" ++ str (4 * Z.of_nat (List.length sils) + 2) ++ "]")%string.
Proof.
  intros T sils a g H. apply silencecutterfade_Ok in H. subst g.
  destruct (plan_closed_counts T sils a) as (_ & _ & ->).
  replace (4 * Z.of_nat (List.length sils) + 1 + 1)%Z
    with (4 * Z.of_nat (List.length sils) + 2)%Z by lia.
  split; [reflexivity|]. intros f. split; reflexivity.
Qed.

Lemma X15_witness :
  exists g,
    run (silencecutterfade 60 [mkSilence 20 24 4] "0") = Ok g
    /\ stream_id g = (4 * Z.of_nat (List.length [mkSilence 20 24 4]) + 2)%Z.
Proof.
  eexists. split.
  - vm_compute. reflexivity.
  - refine (proj1 (X15_root_identifier 60 [mkSilence 20 24 4] "0" _ _)).
    vm_compute. reflexivity.
Defined.





(** X18.  Without silences the graph is the concatenation of the one
    trim from 0 to the duration of the video; a video whose duration is
    not positive leaves nothing to concatenate and [Concat] raises
    [IndexError]. *)
Theorem X18_no_silences :
  forall video_duration audio_stream_id,
    (0 < video_duration ->
     exists x y,
       run (silencecutterfade video_duration [] audio_stream_id)
       = Ok (Concat [PtsTrim (combined_stream audio_stream_id) 1 x y] 2)
       /\ x == 0 /\ y == video_duration)
    /\ (video_duration <= 0 ->
        run (silencecutterfade video_duration [] audio_stream_id)
        = Raise IndexError).
Proof.
  intros T a. unfold run, silencecutterfade, bind.
  rewrite plan_closed_eq. unfold plan_closed.
  cbn [boundaries_closed]. unfold step_streams, step_cross, step_kept,
    step_main, step_next, step_used, new_fade_out.
  cbn [fade_duration app negb]. split; intros H.
  - assert (K : Qpos_bool (T - 0 - (0 + 0)) = true)
      by (apply Qpos_bool_true; lra).
    rewrite K. cbn. do 2 eexists. split; [reflexivity|]. split; ring.
  - assert (K : Qpos_bool (T - 0 - (0 + 0)) = false)
      by (apply Qpos_bool_false; lra).
    rewrite K. reflexivity.
Qed.

Lemma X18_witness :
  run (silencecutterfade 0 [] "0") = Raise IndexError.
Proof.
  apply (proj2 (X18_no_silences 0 "0")). vm_compute. discriminate.
Defined.



Section PlannerChronological.

(** With the silences in chronological order and ending within the
    video, no main clip is left out. *)
Lemma plan_closed_keeps_all T sils a :
  0 < T ->
  chronological 0 sils ->
  Forall (fun x => end_ x <= T) sils ->
  List.length (main_clip_durations (fst (plan_closed T sils a)))
  = (List.length sils + 1)%nat.
Proof.
  intros HT C HE.
  destruct (plan_closed_inv a
    (fun rest s fo streams _ =>
       chrono_inv rest s fo streams
       /\ Forall (fun x => end_ x <= T) rest
       /\ s + fade_duration fo < T
       /\ (List.length (main_clip_durations streams) + List.length rest
           = List.length sils)%nat) T sils)
    as (s & fo & streams & next & P & (_ & _ & Hlt & Hn) & ->).
  - intros sil rest s fo streams next P (Hc & Hr & Hlt & Hn).
    inversion Hr as [|? ? Hsil Hrest]; subst.
    pose proof (chrono_step (combined_stream a) sil rest s fo streams next P Hc)
      as Hc'.
    destruct Hc as (t & [Ht _] & B & _ & _).
    assert (D : s + fade_duration fo
                < start sil + START_SILENCE_LENGTH - FADE_LENGTH).
    { rewrite START_SILENCE_LENGTH_value, FADE_LENGTH_value. lra. }
    split; [exact Hc'|]. split; [exact Hrest|]. split.
    + unfold step_fade_out. rewrite (new_fade_out_default _ _ _ D).
      cbn [fade_duration].
      rewrite END_SILENCE_LENGTH_value, FADE_LENGTH_value. lra.
    + unfold step_streams, step_kept, step_main.
      rewrite (new_fade_out_default _ _ _ D).
      assert (K : Qpos_bool (start sil + START_SILENCE_LENGTH - FADE_LENGTH
                             - (s + fade_duration fo)) = true)
        by (apply Qpos_bool_true; lra).
      rewrite K, !main_clip_durations_app, step_cross_no_main, !length_app.
      cbn [List.length main_clip_durations flat_map app] in *. lia.
  - split; [|split; [exact HE|split; [cbn [fade_duration]; lra|reflexivity]]].
    exists 0. split; [exact C|]. split; [cbn [fade_duration]; lra|].
    split; [constructor|now left].
  - cbn [fst]. unfold step_streams, step_kept, step_main, new_fade_out.
    cbn [negb].
    assert (K : Qpos_bool (T - 0 - (s + fade_duration fo)) = true)
      by (apply Qpos_bool_true; lra).
    rewrite K, !main_clip_durations_app, step_cross_no_main, !length_app.
    cbn [List.length main_clip_durations flat_map app] in *. lia.
Qed.

End PlannerChronological.

(** X20.  For silences in chronological order that end within a video of
    positive duration nothing is left out: the plan has one main clip
    more than there are silences, 2n + 1 streams in all, and the graph
    emits 12n + 3 expressions. *)
Theorem X20_chronological_plan_is_complete :
  forall (str_float : Q -> string) video_duration sils audio_stream_id,
    0 < video_duration ->
    chronological 0 sils ->
    Forall (fun x => end_ x <= video_duration) sils ->
    exists streams next,
      run (silencecutterfade video_duration sils audio_stream_id)
      = Ok (Concat streams next)
      /\ List.length (main_clip_durations streams) = (List.length sils + 1)%nat
      /\ List.length streams = (2 * List.length sils + 1)%nat
      /\ List.length (filters str_float (Concat streams next) [])
         = (12 * List.length sils + 3)%nat.
Proof.
  intros f T sils a HT C HE.
  pose proof (plan_closed_keeps_all T sils a HT C HE) as Hm.
  destruct (plan_closed_ids T sils a) as (Hp & _).
  destruct (plan_closed_counts T sils a) as (Hf & _ & _).
  assert (H0 : match sils with [] => 0 < T | sil :: _ => 0 <= start sil end).
  { destruct sils as [|sil rest]; [exact HT|]. now destruct C. }
  destruct (plan_closed_head T sils a H0) as (i & x & y & tl & E).
  exists (fst (plan_closed T sils a)), (snd (plan_closed T sils a) + 1)%Z.
  split; [|repeat split].
  - unfold run, silencecutterfade, bind. rewrite plan_closed_eq.
    destruct (plan_closed T sils a) as [streams next]. cbn [fst snd] in *.
    subst streams. cbn [new_Concat]. unfold bind.
    now rewrite (next_id_rooted (PtsTrim (combined_stream a) i x y) eq_refl).
  - exact Hm.
  - rewrite (planned_count _ _ Hp). lia.
  - rewrite (filters_predecessors_first f (Concat _ _) []).
    cbn [app predecessors]. rewrite length_app.
    rewrite (planned_list_emits f a _ Hp), Hf, Hm.
    cbn [own_filters List.length]. lia.
Qed.

Lemma X20_witness :
  exists streams next,
    run (silencecutterfade 60 [mkSilence 20 24 4; mkSilence 30 35 5] "0")
    = Ok (Concat streams next)
    /\ List.length (main_clip_durations streams)
       = (List.length [mkSilence 20 24 4; mkSilence 30 35 5] + 1)%nat
    /\ List.length streams
       = (2 * List.length [mkSilence 20 24 4; mkSilence 30 35 5] + 1)%nat
    /\ List.length (filters (fun _ => "t"%string) (Concat streams next) [])
       = (12 * List.length [mkSilence 20 24 4; mkSilence 30 35 5] + 3)%nat.
Proof.
  apply (X20_chronological_plan_is_complete (fun _ => "t"%string) 60
           [mkSilence 20 24 4; mkSilence 30 35 5] "0").
  - reflexivity.
  - cbn. repeat split; vm_compute; discriminate.
  - repeat constructor; vm_compute; discriminate.
Defined.

(** X21.  In a compiled graph the trims and crossfades have pairwise
    distinct identifiers, all greater than the input's 0 and smaller than
    the root's. *)
Theorem X21_identifiers_of_a_graph :
  forall video_duration sils audio_stream_id g,
    run (silencecutterfade video_duration sils audio_stream_id) = Ok g ->
    exists streams,
      g = Concat streams (stream_id g)
      /\ NoDup (flat_map seg_ids streams)
      /\ Forall (fun i => (0 < i < stream_id g)%Z) (flat_map seg_ids streams).
Proof.
  intros T sils a g H. apply silencecutterfade_Ok in H. subst g.
  destruct (plan_closed_ids T sils a) as (_ & Hs & Hb).
  rewrite app_nil_r in Hs, Hb.
  eexists. split; [reflexivity|]. cbn [stream_id]. split.
  - now apply sorted_lt_NoDup.
  - eapply Forall_impl; [|exact Hb]. cbv beta. lia.
Qed.

Lemma X21_witness :
  exists g,
    run (silencecutterfade 60 [mkSilence 20 24 4] "0") = Ok g
    /\ exists streams,
         g = Concat streams (stream_id g)
         /\ NoDup (flat_map seg_ids streams)
         /\ Forall (fun i => (0 < i < stream_id g)%Z) (flat_map seg_ids streams).
Proof.
  eexists. split.
  - vm_compute. reflexivity.
  - refine (X21_identifiers_of_a_graph 60 [mkSilence 20 24 4] "0" _ _).
    vm_compute. reflexivity.
Defined.
